(** * Task lifecycle of the QASM3 execution service (app/helpers.py,
    app/routes.py, app/tasks.py, app/queue.py, app/settings.py).

    The Redis key-value store, the dramatiq broker queue and the dramatiq
    Redis result backend are modelled as one [world] record; every Redis
    operation issued by the code is appended to an operation log, so that
    ordering ("happens-before") questions are questions about the log.
    The routes and the actor are written in a small state/exception monad
    that follows Python's semantics: effects done before a [raise] stay. *)

From Stdlib Require Import ZArith Ascii String List Lia.
From stdpp Require Import base gmap strings list.

Import ListNotations.
Local Set Warnings "-register-all".
Local Open Scope Z_scope.

(* ===================================================================== *)
(** ** uuid: rendering of 128-bit identifiers (Python's uuid module)      *)
(* ===================================================================== *)

Module Uuid.

(** One lowercase hexadecimal digit, as in ['%x']. *)
Definition hex_digit (d : Z) : ascii :=
  nth (Z.to_nat d) (list_ascii_of_string "0123456789abcdef") "0"%char.

(** The [k] low hexadecimal digits of [n], most significant first,
    zero padded: ['%0kx' % n] for [0 <= n < 16^k]. *)
Fixpoint hex_fixed (k : nat) (n : Z) : list ascii :=
  match k with
  | O => []
  | S k' => hex_fixed k' (n / 16) ++ [hex_digit (n mod 16)]
  end.

(** [uuid.UUID.hex]: ['%032x' % self.int]. *)
Definition uuid_hex (i : Z) : string := string_of_list_ascii (hex_fixed 32 i).

(** [uuid.UUID.__str__]:
    [hex[:8]-hex[8:12]-hex[12:16]-hex[16:20]-hex[20:]]. *)
Definition uuid_str_list (h : list ascii) : list ascii :=
  firstn 8 h ++ ["-"%char] ++ firstn 4 (skipn 8 h) ++ ["-"%char]
  ++ firstn 4 (skipn 12 h) ++ ["-"%char] ++ firstn 4 (skipn 16 h)
  ++ ["-"%char] ++ skipn 20 h.

Definition uuid_str (i : Z) : string :=
  string_of_list_ascii (uuid_str_list (hex_fixed 32 i)).

(** [uuid.uuid4()]: [UUID(bytes=os.urandom(16), version=4)]; [r] is the
    16 random bytes read as a big-endian integer ([int.from_bytes]), and
    [UUID.__init__] then forces the variant and version bits:
<<
    int &= ~(0xc000 << 48)
    int |= 0x8000 << 48
    int &= ~(0xf000 << 64)
    int |= 4 << 76
>> *)
Definition uuid4_int (r : Z) : Z :=
  let i := Z.land r (Z.lnot (Z.shiftl 49152 48)) in
  let i := Z.lor i (Z.shiftl 32768 48) in
  let i := Z.land i (Z.lnot (Z.shiftl 61440 64)) in
  Z.lor i (Z.shiftl 4 76).

End Uuid.

(* ===================================================================== *)
(** ** app/helpers.py and dramatiq's message ids                          *)
(* ===================================================================== *)

(** [new_task_id()]: [uuid4().hex]; [r] is the random draw. *)
Definition new_task_id (r : Z) : string := Uuid.uuid_hex (Uuid.uuid4_int r).

(** [dramatiq.message.generate_unique_id()]: [str(uuid.uuid4())], the
    default factory of [Message.message_id]. *)
Definition generate_unique_id (r : Z) : string :=
  Uuid.uuid_str (Uuid.uuid4_int r).

(* ===================================================================== *)
(** ** app/settings.py and the actor declaration of app/tasks.py          *)
(* ===================================================================== *)

(** The integer settings read once at import time ([str_to_int] of the
    environment, with the defaults of the source). *)
Record settings := mkSettings {
  REDIS_RESULT_TTL : Z;
  QC_TASK_TIME_LIMIT_MS : Z;
  QC_TASK_MAX_RETRIES : Z;
  QC_TASK_DEFAULT_SHOTS : Z
}.

Definition default_settings : settings :=
  mkSettings 3600 300000 3 1024.

(** The options a dramatiq actor is declared with. *)
Record actor := mkActor {
  actor_name : string;
  queue_name : string;
  time_limit : Z;
  max_retries : Z;
  store_results : bool
}.

(** [@dramatiq.actor(time_limit=QC_TASK_TIME_LIMIT_MS,
    actor_name="execute_qasm3", max_retries=QC_TASK_MAX_RETRIES,
    store_results=True)] on the default queue. *)
Definition qasm3_task (cfg : settings) : actor :=
  {| actor_name := "execute_qasm3";
     queue_name := "default";
     time_limit := QC_TASK_TIME_LIMIT_MS cfg;
     max_retries := QC_TASK_MAX_RETRIES cfg;
     store_results := true |}.

(* ===================================================================== *)
(** ** Values, exceptions, messages and the shared world                  *)
(* ===================================================================== *)

(** JSON values, as produced by [json.loads] and by dramatiq's JSON
    encoder (objects keep their key order). *)
Inductive json :=
| JNull
| JBool (b : bool)
| JInt (z : Z)
| JStr (s : string)
| JList (l : list json)
| JDict (kv : list (string * json)).

(** The Python value returned by [Message.get_result]: raw bytes or an
    already decoded structure. *)
Inductive pyval :=
| PyBytes (b : list Byte.byte)
| PyJson (j : json).

(** The exceptions the modelled code can raise; all are subclasses of
    [Exception]. *)
Inductive exn :=
| ResultMissing                        (* dramatiq.results.ResultMissing *)
| ResultTimeout                        (* dramatiq.results.ResultTimeout *)
| ResultFailure (msg : string)         (* stored failure of the actor *)
| RedisError (msg : string)            (* redis.exceptions.* *)
| QasmError (msg : string)             (* qiskit parse/simulation errors *)
| HTTPException (status_code : Z) (detail : string).

(** [str(e)]. *)
Definition exn_str (e : exn) : string :=
  match e with
  | ResultMissing => "ResultMissing"
  | ResultTimeout => "ResultTimeout"
  | ResultFailure m | RedisError m | QasmError m => m
  | HTTPException _ d => d
  end.

(** A dramatiq message of [qasm3_task]: queue and actor name, the
    message id, the keyword arguments [task_id] and [qasm3_str], and the
    [retries] option maintained by the Retries middleware. *)
Record message := mkMessage {
  msg_queue_name : string;
  msg_actor_name : string;
  message_id : string;
  arg_task_id : string;
  arg_qasm3_str : string;
  msg_retries : Z
}.

(** What the Results middleware stores for a message: the return value,
    or the failure once the retries are exhausted. *)
Inductive stored_result :=
| RSuccess (v : pyval)
| RFailed (msg : string).

(** One Redis operation, as recorded in the log. *)
Inductive redis_op :=
| OpSet (key : string) (px : Z)
| OpGet (key : string)
| OpDelete (key : string)
| OpEnqueue (mid : string)
| OpDequeue (mid : string)
| OpGetResult (mid : string)
| OpStoreResult (mid : string).

(** The shared state: the key-value entries ([SET key value PX px]), the
    broker queue, the result backend (keyed by message id: the queue and
    actor names of its key are those of [qasm3_task]), whether Redis is
    unreachable (with the error message), and the operation log. *)
Record world := mkWorld {
  kv : gmap string (string * Z);
  queue : list message;
  results : gmap string stored_result;
  fault : option string;
  log : list redis_op
}.

Definition empty_world : world := mkWorld ∅ [] ∅ None [].

Definition set_kv (m : gmap string (string * Z)) (w : world) : world :=
  mkWorld m (queue w) (results w) (fault w) (log w).
Definition set_queue (q : list message) (w : world) : world :=
  mkWorld (kv w) q (results w) (fault w) (log w).
Definition set_results (r : gmap string stored_result) (w : world) : world :=
  mkWorld (kv w) (queue w) r (fault w) (log w).
Definition record (o : redis_op) (w : world) : world :=
  mkWorld (kv w) (queue w) (results w) (fault w) (log w ++ [o]).

(* ===================================================================== *)
(** ** The state/exception monad                                         *)
(* ===================================================================== *)

Module PyM.

Definition M (A : Type) : Type := world -> (exn + A) * world.

Definition ret {A} (a : A) : M A := fun w => (inr a, w).
Definition raise {A} (e : exn) : M A := fun w => (inl e, w).
Definition bind {A B} (m : M A) (k : A -> M B) : M B :=
  fun w => match m w with
           | (inl e, w') => (inl e, w')
           | (inr a, w') => k a w'
           end.
(** [try: m except e: h e]; an exception raised by the handler itself
    propagates. *)
Definition try_except {A} (m : M A) (h : exn -> M A) : M A :=
  fun w => match m w with
           | (inl e, w') => h e w'
           | (inr a, w') => (inr a, w')
           end.

End PyM.

Import PyM.

Notation "'let!' x ':=' m 'in' k" := (bind m (fun x => k))
  (at level 200, x name, m at level 100, k at level 200).

(* ===================================================================== *)
(** ** redis-py client and dramatiq Redis broker / result backend         *)
(* ===================================================================== *)

(** Every call first needs the connection. *)
Definition redis_call {A} (o : redis_op) (act : world -> A * world) : M A :=
  fun w => match fault w with
           | Some m => (inl (RedisError m), w)
           | None => let '(a, w') := act (record o w) in (inr a, w')
           end.

(** [redis_client.set(key, value, px=px)]: the server refuses a
    non-positive expiry. *)
Definition redis_set (key value : string) (px : Z) : M unit :=
  fun w => match fault w with
           | Some m => (inl (RedisError m), w)
           | None =>
               if px <=? 0
               then (inl (RedisError "invalid expire time in 'set' command"), w)
               else (inr tt, set_kv (<[key := (value, px)]> (kv w)) (record (OpSet key px) w))
           end.

(** [redis_client.get(key)]. *)
Definition redis_get (key : string) : M (option string) :=
  redis_call (OpGet key) (fun w => (fst <$> kv w !! key, w)).

(** [redis_client.delete(key)]: deleting an absent key is no error. *)
Definition redis_delete (key : string) : M unit :=
  redis_call (OpDelete key) (fun w => (tt, set_kv (delete key (kv w)) w)).

(** [broker.enqueue(msg)]. *)
Definition broker_enqueue (msg : message) : M unit :=
  redis_call (OpEnqueue (message_id msg))
    (fun w => (tt, set_queue (queue w ++ [msg]) w)).

(** [Message(..., message_id=mid).get_result(backend=..., block=False)]
    on dramatiq's [RedisBackend]: a missing entry raises [ResultMissing],
    a stored failure raises [ResultFailure]. *)
Definition get_result (mid : string) : M pyval :=
  bind (redis_call (OpGetResult mid) (fun w => (results w !! mid, w)))
    (fun r => match r with
              | None => raise ResultMissing
              | Some (RSuccess v) => ret v
              | Some (RFailed m) => raise (ResultFailure m)
              end).

(** The Results middleware storing the outcome of a message. *)
Definition store_result (mid : string) (r : stored_result) : M unit :=
  redis_call (OpStoreResult mid)
    (fun w => (tt, set_results (<[mid := r]> (results w)) w)).

(* ===================================================================== *)
(** ** External collaborators                                            *)
(* ===================================================================== *)

(** The libraries the service calls and whose behaviour is not specified
    here: [qiskit.qasm3.loads] ([None] when it raises),
    [qiskit.qasm3.dumps], [AerSimulator().run(circuit, shots=shots)
    .result().get_counts()] ([None] when it raises), and
    [json.loads(b.decode("utf-8"))] ([None] when either raises). *)
Record externals := mkExternals {
  circuit : Type;
  qasm3_loads : string -> option circuit;
  qasm3_dumps : circuit -> string;
  simulate : circuit -> Z -> option (list (string * Z));
  json_loads_utf8 : list Byte.byte -> option json
}.

(** [str.isspace] on the characters a [string] can hold (Latin-1). *)
Definition py_isspace (c : ascii) : bool :=
  match nat_of_ascii c with
  | 9 | 10 | 11 | 12 | 13 | 28 | 29 | 30 | 31 | 32 | 133 | 160 => true
  | _ => false
  end%nat.

Fixpoint lstrip_list (l : list ascii) : list ascii :=
  match l with
  | [] => []
  | c :: t => if py_isspace c then lstrip_list t else l
  end.

(** [str.strip()]. *)
Definition py_strip (s : string) : string :=
  string_of_list_ascii
    (rev (lstrip_list (rev (lstrip_list (list_ascii_of_string s))))).

(** [_SUBMITTED_PREFIX] and [_submitted_key] of app/routes.py. *)
Definition SUBMITTED_PREFIX : string := "task_submitted:".
Definition submitted_key (task_id : string) : string :=
  String.append SUBMITTED_PREFIX task_id.

(** [{"task_id": ..., "message": ...}] returned by [submit_task]. *)
Record submit_response := mkSubmitResponse {
  resp_task_id : string;
  resp_message : string
}.

(** The three shapes of [TaskStatusResponse]. *)
Inductive status_response :=
| Completed (result : list (string * json))
| Pending (message : string)
| StatusError (message : string).

Section Service.

Variable cfg : settings.
Variable ext : externals.

(** [actor.message(task_id=..., qasm3_str=...)]: a fresh message on the actor's queue; [r]
    is the random draw of its [message_id]. *)
Definition actor_message (a : actor) (r : Z) (task_id qasm3_str : string)
    : message :=
  mkMessage (queue_name a) (actor_name a) (generate_unique_id r)
    task_id qasm3_str 0.

(* --------------------------------------------------------------------- *)
(** *** POST /tasks: [submit_task]                                        *)
(* --------------------------------------------------------------------- *)

(** Lines 47-60: generate the task id, validate, build and enqueue the
    message. [r_task] and [r_msg] are the two random draws. *)
Definition submit_enqueue (r_task r_msg : Z) (qc : string) : M message :=
  let task_id := new_task_id r_task in
  if String.eqb qc "" || String.eqb (py_strip qc) ""
  then raise (HTTPException 400 "QASM3 code cannot be empty")
  else match qasm3_loads ext (py_strip qc) with
       | None => raise (HTTPException 400 "QASM3 code is not valid")
       | Some c =>
           let msg := actor_message (qasm3_task cfg) r_msg task_id
                        (qasm3_dumps ext c) in
           let! _ := broker_enqueue msg in
           ret msg
       end.

(** Lines 63-66: write the existence flag and answer. *)
Definition submit_mark (msg : message) : M submit_response :=
  let ttl_ms := QC_TASK_TIME_LIMIT_MS cfg * QC_TASK_MAX_RETRIES cfg in
  let! _ := redis_set (submitted_key (message_id msg)) "1" ttl_ms in
  ret (mkSubmitResponse (message_id msg) "Task submitted successfully.").

Definition submit_task (r_task r_msg : Z) (qc : string) : M submit_response :=
  let! msg := submit_enqueue r_task r_msg qc in
  submit_mark msg.

(* --------------------------------------------------------------------- *)
(** *** GET /tasks/{task_id}: [task_status]                               *)
(* --------------------------------------------------------------------- *)

(** Lines 86-99, after [get_result] returned [result]. *)
Definition task_status_result (task_id : string) (result : pyval)
    : M status_response :=
  let decoded :=
    match result with
    | PyBytes b => json_loads_utf8 ext b      (* None: json.loads raised *)
    | PyJson j => Some j
    end in
  match decoded with
  | None => ret (StatusError "Task result format invalid.")
  | Some (JDict d) =>
      let! _ := redis_delete (submitted_key task_id) in
      ret (Completed d)
  | Some _ => ret (StatusError "Task result format invalid.")
  end.

(** Lines 101-103 and 105-107 (same body). *)
Definition pending_or_not_found (task_id : string) : M status_response :=
  let! flag := redis_get (submitted_key task_id) in
  match flag with
  | Some _ => ret (Pending "Task is still in progress.")
  | None => ret (StatusError "Task not found.")
  end.

(** The three [except] clauses, lines 100-110. *)
Definition task_status_except (task_id : string) (e : exn)
    : M status_response :=
  match e with
  | ResultMissing => pending_or_not_found task_id
  | ResultTimeout => pending_or_not_found task_id
  | _ => ret (StatusError (exn_str e))
  end.

Definition task_status (task_id : string) : M status_response :=
  try_except
    (let! result := get_result task_id in task_status_result task_id result)
    (task_status_except task_id).

(* --------------------------------------------------------------------- *)
(** *** The actor [qasm3_task] and the dramatiq worker                    *)
(* --------------------------------------------------------------------- *)

(** The body of [qasm3_task(task_id, qasm3_str, shots)]. *)
Definition qasm3_task_fn (task_id qasm3_str : string) (shots : Z)
    : M (list (string * Z)) :=
  match qasm3_loads ext qasm3_str with
  | None => raise (QasmError "QASM3 parse error")
  | Some circuit =>
      match simulate ext circuit shots with
      | None => raise (QasmError "simulator failure")
      | Some counts =>
          let! _ := redis_delete (String.append "task_submitted:" task_id) in
          ret counts
      end
  end.

(** [dict(counts)] as stored by the JSON encoder of the result backend
    and decoded again by [get_result]. *)
Definition counts_json (counts : list (string * Z)) : pyval :=
  PyJson (JDict (map (fun '(k, n) => (k, JInt n)) counts)).

(** The consumer taking the next message off the queue. *)
Definition worker_dequeue : M (option message) :=
  fun w => match fault w with
           | Some m => (inl (RedisError m), w)
           | None =>
               match queue w with
               | [] => (inr None, w)
               | msg :: q =>
                   (inr (Some msg), set_queue q (record (OpDequeue (message_id msg)) w))
               end
           end.

(** The worker thread calls the actor with the message's keyword
    arguments and the default [shots], catching whatever it raises. *)
Definition run_actor (msg : message) : M (exn + list (string * Z)) :=
  fun w =>
    match qasm3_task_fn (arg_task_id msg) (arg_qasm3_str msg)
            (QC_TASK_DEFAULT_SHOTS cfg) w with
    | (inl e, w') => (inr (inl e), w')
    | (inr c, w') => (inr (inr c), w')
    end.

(** [after_process_message] of the Retries then the Results middleware:
    a return value is stored; a failure is retried while
    [retries <= max_retries], and stored as a failure afterwards. *)
Definition after_process (msg : message) (out : exn + list (string * Z))
    : M unit :=
  match out with
  | inr counts => store_result (message_id msg) (RSuccess (counts_json counts))
  | inl e =>
      let retries := msg_retries msg + 1 in
      if retries >? max_retries (qasm3_task cfg)
      then store_result (message_id msg) (RFailed (exn_str e))
      else broker_enqueue
             (mkMessage (msg_queue_name msg) (msg_actor_name msg)
                (message_id msg) (arg_task_id msg) (arg_qasm3_str msg) retries)
  end.

(** One message processed by a worker thread from start to end. *)
Definition process_message (msg : message) : M unit :=
  let! out := run_actor msg in
  after_process msg out.

End Service.

(* ===================================================================== *)
(** ** The running service: clients, workers and Redis, interleaved       *)
(* ===================================================================== *)

(** Where one [submit_task] request is: before its enqueue, between the
    enqueue and the flag write, or answered. *)
Inductive submit_pc :=
| SubmitStart (r_task r_msg : Z) (qc : string)
| SubmitEnqueued (msg : message)
| SubmitReturned (resp : exn + submit_response).

(** Where one worker thread is: idle, or between the actor's return and
    the [after_process_message] hooks. *)
Inductive worker_pc :=
| WorkerIdle
| WorkerRan (msg : message) (out : exn + list (string * Z)).

Record sys := mkSys {
  sys_world : world;
  submitters : list submit_pc;
  workers : list worker_pc
}.

Section Steps.

Variable cfg : settings.
Variable ext : externals.

(** Each Redis command is atomic; a request or a worker is interleaved
    with the others at the points of the source named in [submit_pc] and
    [worker_pc]. A [task_status] request (whose only write is one
    delete) is one step. Entries may also expire (marker TTL, result
    retention) and Redis may become unreachable or reachable again. *)
Inductive step : sys -> sys -> Prop :=
| st_request (r_task r_msg : Z) (qc : string) (s : sys) :
    step s (mkSys (sys_world s) (submitters s ++ [SubmitStart r_task r_msg qc])
              (workers s))
| st_submit_enqueue (i : nat) r_task r_msg qc (s : sys) o w' :
    submitters s !! i = Some (SubmitStart r_task r_msg qc) ->
    submit_enqueue cfg ext r_task r_msg qc (sys_world s) = (o, w') ->
    step s (mkSys w'
              (<[i := match o with
                      | inl e => SubmitReturned (inl e)
                      | inr msg => SubmitEnqueued msg
                      end]> (submitters s))
              (workers s))
| st_submit_mark (i : nat) msg (s : sys) o w' :
    submitters s !! i = Some (SubmitEnqueued msg) ->
    submit_mark cfg msg (sys_world s) = (o, w') ->
    step s (mkSys w' (<[i := SubmitReturned o]> (submitters s)) (workers s))
| st_worker_run (j : nat) msg (s : sys) w1 out w2 :
    workers s !! j = Some WorkerIdle ->
    worker_dequeue (sys_world s) = (inr (Some msg), w1) ->
    run_actor cfg ext msg w1 = (inr out, w2) ->
    step s (mkSys w2 (submitters s) (<[j := WorkerRan msg out]> (workers s)))
| st_worker_finish (j : nat) msg out (s : sys) o w' :
    workers s !! j = Some (WorkerRan msg out) ->
    after_process cfg msg out (sys_world s) = (o, w') ->
    step s (mkSys w' (submitters s) (<[j := WorkerIdle]> (workers s)))
| st_query (task_id : string) (s : sys) o w' :
    task_status ext task_id (sys_world s) = (o, w') ->
    step s (mkSys w' (submitters s) (workers s))
| st_expire_marker (k : string) (s : sys) :
    step s (mkSys (set_kv (delete k (kv (sys_world s))) (sys_world s))
              (submitters s) (workers s))
| st_expire_result (mid : string) (s : sys) :
    step s (mkSys (set_results (delete mid (results (sys_world s))) (sys_world s))
              (submitters s) (workers s))
| st_fault (f : option string) (s : sys) :
    let w := sys_world s in
    step s (mkSys (mkWorld (kv w) (queue w) (results w) f (log w))
              (submitters s) (workers s)).

Definition reachable (s0 s : sys) : Prop := rtc step s0 s.

(** A schedule: which thread moves next (or which request arrives,
    which entry expires, ...). *)
Inductive action :=
| ARequest (r_task r_msg : Z) (qc : string)
| AEnqueue (i : nat)
| AMark (i : nat)
| ARun (j : nat)
| AFinish (j : nat)
| AQuery (task_id : string)
| AExpireMarker (k : string)
| AExpireResult (mid : string)
| AFault (f : option string).

(** The step an action names, when that thread is at the right point. *)
Definition exec_action (a : action) (s : sys) : option sys :=
  match a with
  | ARequest r_task r_msg qc =>
      Some (mkSys (sys_world s) (submitters s ++ [SubmitStart r_task r_msg qc])
              (workers s))
  | AEnqueue i =>
      match submitters s !! i with
      | Some (SubmitStart r_task r_msg qc) =>
          let '(o, w') := submit_enqueue cfg ext r_task r_msg qc (sys_world s) in
          Some (mkSys w'
                  (<[i := match o with
                          | inl e => SubmitReturned (inl e)
                          | inr msg => SubmitEnqueued msg
                          end]> (submitters s))
                  (workers s))
      | _ => None
      end
  | AMark i =>
      match submitters s !! i with
      | Some (SubmitEnqueued msg) =>
          let '(o, w') := submit_mark cfg msg (sys_world s) in
          Some (mkSys w' (<[i := SubmitReturned o]> (submitters s)) (workers s))
      | _ => None
      end
  | ARun j =>
      match workers s !! j with
      | Some WorkerIdle =>
          match worker_dequeue (sys_world s) with
          | (inr (Some msg), w1) =>
              match run_actor cfg ext msg w1 with
              | (inr out, w2) =>
                  Some (mkSys w2 (submitters s) (<[j := WorkerRan msg out]> (workers s)))
              | _ => None
              end
          | _ => None
          end
      | _ => None
      end
  | AFinish j =>
      match workers s !! j with
      | Some (WorkerRan msg out) =>
          let '(_, w') := after_process cfg msg out (sys_world s) in
          Some (mkSys w' (submitters s) (<[j := WorkerIdle]> (workers s)))
      | _ => None
      end
  | AQuery task_id =>
      let '(_, w') := task_status ext task_id (sys_world s) in
      Some (mkSys w' (submitters s) (workers s))
  | AExpireMarker k =>
      Some (mkSys (set_kv (delete k (kv (sys_world s))) (sys_world s))
              (submitters s) (workers s))
  | AExpireResult mid =>
      Some (mkSys (set_results (delete mid (results (sys_world s))) (sys_world s))
              (submitters s) (workers s))
  | AFault f =>
      let w := sys_world s in
      Some (mkSys (mkWorld (kv w) (queue w) (results w) f (log w))
              (submitters s) (workers s))
  end.

Fixpoint exec (acts : list action) (s : sys) : option sys :=
  match acts with
  | [] => Some s
  | a :: acts' =>
      match exec_action a s with
      | Some s' => exec acts' s'
      | None => None
      end
  end.

End Steps.

(** The service started with empty Redis, no request, [n] worker
    threads. *)
Definition boot (n : nat) : sys := mkSys empty_world [] (replicate n WorkerIdle).

(* ===================================================================== *)
(** ** Concrete collaborators used to run the model                       *)
(* ===================================================================== *)

(** A stand-in for qiskit: every non-empty program parses (to itself),
    and every run measures the counts of the test suite's Bell state. *)
Definition bell_ext : externals :=
  {| circuit := string;
     qasm3_loads := fun s => Some s;
     qasm3_dumps := fun c => c;
     simulate := fun _ _ => Some [("00", 5); ("11", 3)];
     json_loads_utf8 := fun _ => None |}.

Definition bell_qc : string := "OPENQASM 3.0; qubit[2] q; h q[0];".

(* ===================================================================== *)
(** ** Vocabulary of the statements                                       *)
(* ===================================================================== *)

(** The lowercase hexadecimal digits. *)
Definition lower_hex_digits : list ascii := list_ascii_of_string "0123456789abcdef".

Definition is_lower_hex (c : ascii) : Prop := In c lower_hex_digits.

(** [int(c, 16)] of one digit. *)
Definition hex_char_value (c : ascii) : Z :=
  match find (fun p => Ascii.eqb (fst p) c)
          (combine lower_hex_digits (map Z.of_nat (seq 0 16))) with
  | Some (_, v) => v
  | None => 0
  end.

(** [int(s, 16)]. *)
Definition hex_value (l : list ascii) : Z :=
  fold_left (fun acc c => acc * 16 + hex_char_value c) l 0.

(** A 32-character lowercase hexadecimal string. *)
Definition hex32 (s : string) : Prop :=
  String.length s = 32%nat /\ Forall is_lower_hex (list_ascii_of_string s).

(** The canonical text form of a UUID: lowercase hexadecimal digits in
    groups of 8, 4, 4, 4 and 12, separated by dashes (36 characters). *)
Definition canonical_uuid (s : string) : Prop :=
  exists a b c d e : list ascii,
    list_ascii_of_string s
      = a ++ ["-"%char] ++ b ++ ["-"%char] ++ c ++ ["-"%char] ++ d ++ ["-"%char] ++ e
    /\ length a = 8%nat /\ length b = 4%nat /\ length c = 4%nat
    /\ length d = 4%nat /\ length e = 12%nat
    /\ Forall is_lower_hex (a ++ b ++ c ++ d ++ e).

(** The mapping a retrieved result normalizes to, if any: raw bytes are
    decoded and parsed first, and only a JSON object is a mapping. *)
Definition decoded_mapping (ext : externals) (v : pyval)
    : option (list (string * json)) :=
  match v with
  | PyBytes b =>
      match json_loads_utf8 ext b with
      | Some (JDict d) => Some d
      | _ => None
      end
  | PyJson (JDict d) => Some d
  | PyJson _ => None
  end.

(** A mapping from string to non-negative integer. *)
Definition is_count_mapping (d : list (string * json)) : bool :=
  forallb (fun '(_, j) => match j with JInt z => 0 <=? z | _ => false end) d.

(** A client polling [GET /tasks/{task_id}] [n] times in a row. *)
Fixpoint poll (ext : externals) (n : nat) (task_id : string)
    : M (list status_response) :=
  match n with
  | O => ret []
  | S n' =>
      let! r := task_status ext task_id in
      let! rs := poll ext n' task_id in
      ret (r :: rs)
  end.

(** A submission fails the validation of [submit_task]: the program is
    blank, or qiskit cannot parse it. *)
Definition fails_validation (ext : externals) (qc : string) : bool :=
  String.eqb (py_strip qc) ""
  || match qasm3_loads ext (py_strip qc) with Some _ => false | None => true end.

(** The message [mid] was put on the broker queue at some point. *)
Definition ever_enqueued (w : world) (mid : string) : Prop :=
  OpEnqueue mid ∈ log w.

(** Every trace a task leaves in the running service goes back to an
    enqueue of its message. *)
Record enqueue_inv (s : sys) : Prop := {
  inv_kv : forall mid, is_Some (kv (sys_world s) !! submitted_key mid) ->
             ever_enqueued (sys_world s) mid;
  inv_results : forall mid, is_Some (results (sys_world s) !! mid) ->
             ever_enqueued (sys_world s) mid;
  inv_queue : forall msg, msg ∈ queue (sys_world s) ->
             ever_enqueued (sys_world s) (message_id msg);
  inv_submit : forall i msg, submitters s !! i = Some (SubmitEnqueued msg) ->
             ever_enqueued (sys_world s) (message_id msg);
  inv_worker : forall j msg out, workers s !! j = Some (WorkerRan msg out) ->
             ever_enqueued (sys_world s) (message_id msg)
}.

(** A computation that at most deletes key-value entries and appends to
    the log. *)
Definition only_deletes (w w' : world) : Prop :=
  (forall k, is_Some (kv w' !! k) -> is_Some (kv w !! k)) /\
  queue w' = queue w /\ results w' = results w /\
  exists l, log w' = log w ++ l.

Definition deletes_only {A} (m : M A) : Prop :=
  forall w o w', m w = (o, w') -> only_deletes w w'.

(* ===================================================================== *)
(** ** app/settings.py: integers and the API host from the environment    *)
(* ===================================================================== *)

(** The characters [int()] skips before and after the number: the
    ASCII [isspace] of C ([\t], [\n], [\v], [\f], [\r] and space) and
    the non-ASCII whitespace, which [int()] first turns into spaces. The
    separators [\x1c]-[\x1f], whitespace for [str.strip()], are not
    skipped. *)
Definition int_space (c : ascii) : bool :=
  match nat_of_ascii c with
  | 9 | 10 | 11 | 12 | 13 | 32 | 133 | 160 => true
  | _ => false
  end%nat.

Fixpoint lstrip_by (p : ascii -> bool) (l : list ascii) : list ascii :=
  match l with
  | [] => []
  | c :: t => if p c then lstrip_by p t else l
  end.

(** A decimal digit (Latin-1 has no other decimal characters). *)
Definition digit_value (c : ascii) : option Z :=
  let n := nat_of_ascii c in
  if (48 <=? n)%nat && (n <=? 57)%nat then Some (Z.of_nat n - 48) else None.

(** One digit more: [acc * 10 + digit]. *)
Definition digit_step (acc : Z) (c : ascii) : Z :=
  acc * 10 + match digit_value c with Some d => d | None => 0 end.

(** The digits after the first one, each possibly preceded by one
    underscore: the accumulated value, the number of digits and what
    is left. *)
Fixpoint scan_digits (l : list ascii) (acc : Z) (cnt : nat)
    : Z * nat * list ascii :=
  match l with
  | [] => (acc, cnt, [])
  | c :: t =>
      match digit_value c with
      | Some d => scan_digits t (acc * 10 + d) (S cnt)
      | None =>
          if Ascii.eqb c "_" then
            match t with
            | c' :: t' =>
                match digit_value c' with
                | Some d => scan_digits t' (acc * 10 + d) (S cnt)
                | None => (acc, cnt, l)
                end
            | [] => (acc, cnt, l)
            end
          else (acc, cnt, l)
      end
  end.

(** The default limit of [sys.get_int_max_str_digits()]. *)
Definition INT_MAX_STR_DIGITS : nat := 4300.

(** [int(s)] for a [str] (base 10), [None] when it raises [ValueError]:
    whitespace, an optional sign, digits with single underscores between
    them (at most 4300 digits), whitespace. *)
Definition py_int (l : list ascii) : option Z :=
  let l := lstrip_by int_space l in
  let '(sgn, l) :=
    match l with
    | c :: t =>
        if Ascii.eqb c "-" then (-1, t)
        else if Ascii.eqb c "+" then (1, t) else (1, l)
    | [] => (1, [])
    end in
  match l with
  | [] => None
  | c :: t =>
      match digit_value c with
      | None => None
      | Some d =>
          let '(n, cnt, rest) := scan_digits t d 1 in
          if (INT_MAX_STR_DIGITS <? cnt)%nat then None
          else match lstrip_by int_space rest with
               | [] => Some (sgn * n)
               | _ => None
               end
      end
  end.

(** [str_to_int(s, default)] of app/settings.py, applied to
    [os.getenv(...)]: [int(s)], or [default] when [int] raises
    [TypeError] ([s] is [None]: the variable is unset) or [ValueError]. *)
Definition str_to_int (s : option string) (default : Z) : Z :=
  match s with
  | None => default
  | Some t =>
      match py_int (list_ascii_of_string t) with
      | Some n => n
      | None => default
      end
  end.

(** [str(n)] of a Python [int]: a minus sign when negative, then the
    decimal digits of the absolute value, most significant first. *)
Definition dec_digit (d : Z) : ascii := ascii_of_nat (48 + Z.to_nat d).

Fixpoint dec_digits (fuel : nat) (n : Z) : list ascii :=
  match fuel with
  | O => []
  | S f =>
      if n <? 10 then [dec_digit n]
      else dec_digits f (n / 10) ++ [dec_digit (n mod 10)]
  end.

Definition py_str_int (n : Z) : string :=
  string_of_list_ascii
    ((if n <? 0 then ["-"%char] else [])
     ++ dec_digits (S (Z.to_nat (Z.log2 (Z.abs n)))) (Z.abs n)).

(** A character [int()] can accept somewhere in its argument. *)
Definition int_char (c : ascii) : bool :=
  int_space c || match digit_value c with Some _ => true | None => false end
  || Ascii.eqb c "+" || Ascii.eqb c "-" || Ascii.eqb c "_".

(** [API_HOST = str(os.getenv("API_HOST")).strip() or "0.0.0.0"]; an
    unset variable is [None], whose [str] is ["None"]. *)
Definition api_host (v : option string) : string :=
  let s := py_strip (match v with None => "None"%string | Some t => t end) in
  if String.eqb s "" then "0.0.0.0"%string else s.

(** The changes a status query may make: at most the deletion of the key
    [k]; queue, results and connection untouched. *)
Definition touches_only (k : string) (w w' : world) : Prop :=
  (kv w' = kv w \/ kv w' = delete k (kv w)) /\
  queue w' = queue w /\ results w' = results w /\ fault w' = fault w.

(* ===================================================================== *)
(** ** Scenarios                                                          *)
(* ===================================================================== *)

(** One request, one worker: the worker completes the task before the
    request writes its marker. *)
Definition race_schedule : list action :=
  [ARequest 1 2 bell_qc; AEnqueue 0; ARun 0; AFinish 0].

(** One request, one worker: the request is answered first, then the
    worker runs the actor and its result is stored. *)
Definition in_order_schedule : list action :=
  [ARequest 1 2 bell_qc; AEnqueue 0; AMark 0; ARun 0].

(** The message of the request of both schedules. *)
Definition bell_message : message :=
  actor_message (qasm3_task default_settings) 2 (new_task_id 1) bell_qc.

(** A completed task ["m"] whose marker is still there. *)
Definition completed_world : world :=
  mkWorld {[submitted_key "m" := ("1"%string, 900000)]} []
    {["m" := RSuccess (counts_json [("00", 5); ("11", 3)])]} None [].

(** A stored result that is a JSON object with a negative entry. *)
Definition negative_count_world : world :=
  mkWorld ∅ [] {["m" := RSuccess (PyJson (JDict [("00", JInt (-1))]))]} None [].

(** Redis unreachable. *)
Definition redis_down_world : world :=
  mkWorld {[submitted_key "m" := ("1"%string, 900000)]} [] ∅
    (Some "Connection refused"%string) [].

(** Collaborators that reject every program: the parser and the
    simulator always raise. *)
Definition unparsable_ext : externals :=
  {| circuit := unit;
     qasm3_loads := fun _ => None;
     qasm3_dumps := fun _ => ""%string;
     simulate := fun _ _ => None;
     json_loads_utf8 := fun _ => None |}.

(* ===================================================================== *)
(** ** Runs of the model                                                  *)
(* ===================================================================== *)

Example new_task_id_shape :
  new_task_id 0 = "00000000000040008000000000000000"%string.
Proof. reflexivity. Qed.

Example generate_unique_id_shape :
  generate_unique_id 0 = "00000000-0000-4000-8000-000000000000"%string.
Proof. reflexivity. Qed.

Example submit_runs :
  fst (submit_task default_settings bell_ext 1 2 bell_qc empty_world)
  = inr (mkSubmitResponse (generate_unique_id 2) "Task submitted successfully.").
Proof. reflexivity. Qed.

Example submit_empty_runs :
  fst (submit_task default_settings bell_ext 1 2 "  " empty_world)
  = inl (HTTPException 400 "QASM3 code cannot be empty").
Proof. reflexivity. Qed.

Example status_unknown_runs :
  fst (task_status bell_ext "abc" empty_world) = inr (StatusError "Task not found.").
Proof. reflexivity. Qed.

(* ===================================================================== *)
(** ** Facts on the identifier renderings                                 *)
(* ===================================================================== *)

Module UuidFacts.
Import Uuid.

Lemma length_string_of_list_ascii (l : list ascii) :
  String.length (string_of_list_ascii l) = length l.
Proof. induction l; simpl; auto. Qed.

Lemma hex_fixed_length (k : nat) (n : Z) : length (hex_fixed k n) = k.
Proof.
  revert n; induction k as [|k IH]; intros n; simpl; [done|].
  rewrite length_app, IH; simpl; lia.
Qed.

Lemma hex_digit_lower (d : Z) : is_lower_hex (hex_digit d).
Proof.
  unfold is_lower_hex, hex_digit, lower_hex_digits.
  destruct (Nat.lt_ge_cases (Z.to_nat d)
              (length (list_ascii_of_string "0123456789abcdef"))) as [H|H].
  - apply nth_In; exact H.
  - rewrite nth_overflow by exact H. simpl; auto.
Qed.

Lemma hex_fixed_lower (k : nat) (n : Z) : Forall is_lower_hex (hex_fixed k n).
Proof.
  revert n; induction k as [|k IH]; intros n; simpl; [constructor|].
  apply Forall_app; split; [apply IH|].
  constructor; [apply hex_digit_lower|constructor].
Qed.

Lemma hex_char_value_digit (d : Z) :
  0 <= d < 16 -> hex_char_value (hex_digit d) = d.
Proof.
  intros Hd.
  assert (Hk : forall k : nat, (k < 16)%nat ->
            hex_char_value (hex_digit (Z.of_nat k)) = Z.of_nat k).
  { intros k Hk. do 16 (destruct k as [|k]; [reflexivity|]). lia. }
  rewrite <- (Z2Nat.id d) by lia. apply Hk. lia.
Qed.

Lemma mod_mul_floor (a b c : Z) :
  0 < b -> 0 < c -> a mod (b * c) = a mod b + b * ((a / b) mod c).
Proof.
  intros Hb Hc.
  pose proof (Z.div_mod a (b * c) ltac:(lia)) as E1.
  pose proof (Z.div_mod a b ltac:(lia)) as E2.
  pose proof (Z.div_mod (a / b) c ltac:(lia)) as E3.
  rewrite Z.div_div in E3 by lia.
  nia.
Qed.

Lemma hex_value_snoc (l : list ascii) (c : ascii) :
  hex_value (l ++ [c]) = hex_value l * 16 + hex_char_value c.
Proof. unfold hex_value. rewrite fold_left_app. reflexivity. Qed.

(** Reading back the digits gives the number modulo [16^k]. *)
Lemma hex_value_fixed (k : nat) (n : Z) :
  hex_value (hex_fixed k n) = n mod 16 ^ Z.of_nat k.
Proof.
  revert n; induction k as [|k IH]; intros n.
  - simpl. rewrite Z.mod_1_r. reflexivity.
  - simpl hex_fixed. rewrite hex_value_snoc, IH.
    rewrite hex_char_value_digit by (apply Z.mod_pos_bound; lia).
    rewrite Nat2Z.inj_succ, Z.pow_succ_r by lia.
    rewrite mod_mul_floor by lia. lia.
Qed.

(** The five slices of [UUID.__str__] put back together. *)
Definition undash (l : list ascii) : list ascii :=
  firstn 8 l ++ firstn 4 (skipn 9 l) ++ firstn 4 (skipn 14 l)
  ++ firstn 4 (skipn 19 l) ++ skipn 24 l.

Lemma undash_uuid_str_list (h : list ascii) :
  (20 <= length h)%nat -> undash (uuid_str_list h) = h.
Proof.
  intros Hlen.
  do 20 (destruct h as [|? h]; [simpl in Hlen; lia|]).
  reflexivity.
Qed.

Lemma uuid_str_length (i : Z) : String.length (uuid_str i) = 36%nat.
Proof.
  unfold uuid_str, uuid_str_list.
  rewrite length_string_of_list_ascii.
  pose proof (hex_fixed_length 32 i) as H.
  remember (hex_fixed 32 i) as h eqn:Eh. clear Eh.
  rewrite !length_app, !length_firstn, !length_skipn, H. reflexivity.
Qed.

Lemma uuid_hex_length (i : Z) : String.length (uuid_hex i) = 32%nat.
Proof.
  unfold uuid_hex. rewrite length_string_of_list_ascii. apply hex_fixed_length.
Qed.

Lemma uuid_str_canonical (i : Z) : canonical_uuid (uuid_str i).
Proof.
  unfold canonical_uuid, uuid_str.
  rewrite list_ascii_of_string_of_list_ascii.
  pose proof (hex_fixed_length 32 i) as Hl.
  pose proof (hex_fixed_lower 32 i) as Hx.
  remember (hex_fixed 32 i) as h eqn:Eh. clear Eh.
  exists (firstn 8 h), (firstn 4 (skipn 8 h)), (firstn 4 (skipn 12 h)),
         (firstn 4 (skipn 16 h)), (skipn 20 h).
  split; [reflexivity|].
  rewrite !length_firstn, !length_skipn, Hl. simpl.
  do 5 (split; [reflexivity|]).
  assert (Hs : firstn 8 h ++ firstn 4 (skipn 8 h) ++ firstn 4 (skipn 12 h)
               ++ firstn 4 (skipn 16 h) ++ skipn 20 h = h).
  { clear Hx. do 20 (destruct h as [|? h]; [simpl in Hl; lia|]). reflexivity. }
  rewrite Hs. exact Hx.
Qed.

Lemma uuid_hex_hex32 (i : Z) : hex32 (uuid_hex i).
Proof.
  split; [apply uuid_hex_length|].
  unfold uuid_hex. rewrite list_ascii_of_string_of_list_ascii.
  apply hex_fixed_lower.
Qed.

Lemma uuid_str_inj (i j : Z) :
  uuid_str i = uuid_str j -> i mod 2 ^ 128 = j mod 2 ^ 128.
Proof.
  unfold uuid_str. intros H.
  apply (f_equal list_ascii_of_string) in H.
  rewrite !list_ascii_of_string_of_list_ascii in H.
  apply (f_equal undash) in H.
  rewrite !undash_uuid_str_list in H by (rewrite hex_fixed_length; lia).
  apply (f_equal hex_value) in H. rewrite !hex_value_fixed in H.
  exact H.
Qed.

Lemma testbit_small (x m : Z) :
  0 <= x < 2 ^ 128 -> 128 <= m -> Z.testbit x m = false.
Proof.
  intros Hx Hm. destruct (Z.eq_dec x 0) as [->|Hnz]; [apply Z.bits_0|].
  apply Z.bits_above_log2; [lia|].
  assert (Z.log2 x < 128) by (apply Z.log2_lt_pow2; lia). lia.
Qed.

Lemma below_pow2 (x : Z) :
  0 <= x -> (forall m, 128 <= m -> Z.testbit x m = false) -> x < 2 ^ 128.
Proof.
  intros H0 Hb. destruct (Z.lt_ge_cases x (2 ^ 128)) as [|Hge]; [done|].
  exfalso. assert (Hpos : 0 < x) by lia.
  assert (Hl : 128 <= Z.log2 x) by (apply Z.log2_le_pow2; lia).
  pose proof (Z.bit_log2 x Hpos) as Hbit. rewrite Hb in Hbit by lia.
  discriminate.
Qed.

(** Forcing the version and variant bits keeps a 128-bit value in
    range. *)
Lemma uuid4_int_range (r : Z) :
  0 <= r < 2 ^ 128 -> 0 <= uuid4_int r < 2 ^ 128.
Proof.
  intros Hr. unfold uuid4_int.
  assert (Hnn : 0 <= Z.lor (Z.land (Z.lor (Z.land r (Z.lnot (Z.shiftl 49152 48)))
                  (Z.shiftl 32768 48)) (Z.lnot (Z.shiftl 61440 64))) (Z.shiftl 4 76)).
  { apply Z.lor_nonneg; split; [|apply Z.shiftl_nonneg; lia].
    apply Z.land_nonneg; left.
    apply Z.lor_nonneg; split; [|apply Z.shiftl_nonneg; lia].
    apply Z.land_nonneg; left; lia. }
  split; [exact Hnn|].
  apply below_pow2; [exact Hnn|].
  intros m Hm.
  repeat first [ rewrite Z.lor_spec | rewrite Z.land_spec
               | rewrite Z.lnot_spec by lia | rewrite Z.shiftl_spec by lia ].
  rewrite (testbit_small r m) by lia.
  rewrite (Z.bits_above_log2 32768 (m - 48)) by (try lia; cbv [Z.log2]; simpl; lia).
  rewrite (Z.bits_above_log2 4 (m - 76)) by (try lia; cbv [Z.log2]; simpl; lia).
  reflexivity.
Qed.

(** Distinct UUIDs render to distinct message ids. *)
Lemma generate_unique_id_inj (r r' : Z) :
  0 <= r < 2 ^ 128 -> 0 <= r' < 2 ^ 128 ->
  generate_unique_id r = generate_unique_id r' -> uuid4_int r = uuid4_int r'.
Proof.
  intros Hr Hr' H. unfold generate_unique_id in H.
  apply uuid_str_inj in H.
  rewrite !Z.mod_small in H by (apply uuid4_int_range; assumption).
  exact H.
Qed.

Lemma generate_unique_id_NoDup (rs : list Z) :
  Forall (fun r => 0 <= r < 2 ^ 128) rs ->
  NoDup (map uuid4_int rs) -> NoDup (map generate_unique_id rs).
Proof.
  induction rs as [|r rs IH]; intros Hr Hnd; simpl; [constructor|].
  inversion Hr as [|? ? Hr0 Hrs]; subst.
  inversion Hnd as [|? ? Hnin Hnd']; subst.
  constructor; [|apply IH; assumption].
  intros Hin. apply list_elem_of_In, in_map_iff in Hin as (r' & Heq & Hin').
  apply Hnin. apply list_elem_of_In, in_map_iff. exists r'. split; [|exact Hin'].
  apply generate_unique_id_inj; [|exact Hr0|exact Heq].
  rewrite Forall_forall in Hrs. apply Hrs, list_elem_of_In, Hin'.
Qed.

(** The two identifiers have different lengths, so never coincide. *)
Lemma new_task_id_ne_message_id (r r' : Z) :
  new_task_id r <> generate_unique_id r'.
Proof.
  intros H. apply (f_equal String.length) in H.
  unfold new_task_id, generate_unique_id in H.
  rewrite uuid_hex_length, uuid_str_length in H. discriminate.
Qed.

Lemma append_inj_l (p a b : string) :
  String.append p a = String.append p b -> a = b.
Proof. induction p as [|c p IH]; simpl; [done|]. intros H; injection H; auto. Qed.

End UuidFacts.

(* ===================================================================== *)
(** ** POST /tasks                                                        *)
(* ===================================================================== *)

Module SubmitFacts.

(** What an accepted submission did. *)
Lemma submit_task_inr (cfg : settings) (ext : externals) r_task r_msg qc
    (w : world) resp (w' : world) :
  submit_task cfg ext r_task r_msg qc w = (inr resp, w') ->
  exists c,
    qasm3_loads ext (py_strip qc) = Some c /\
    let msg := actor_message (qasm3_task cfg) r_msg (new_task_id r_task)
                 (qasm3_dumps ext c) in
    let ttl := QC_TASK_TIME_LIMIT_MS cfg * QC_TASK_MAX_RETRIES cfg in
    resp = mkSubmitResponse (message_id msg) "Task submitted successfully." /\
    0 < ttl /\
    kv w' = <[submitted_key (message_id msg) := ("1"%string, ttl)]> (kv w) /\
    queue w' = queue w ++ [msg] /\
    results w' = results w /\
    log w' = log w ++ [OpEnqueue (message_id msg);
                       OpSet (submitted_key (message_id msg)) ttl].
Proof.
  unfold submit_task, submit_enqueue, submit_mark, bind, ret, raise,
    broker_enqueue, redis_call, redis_set.
  intros H.
  destruct (String.eqb qc "" || String.eqb (py_strip qc) ""); [discriminate|].
  destruct (qasm3_loads ext (py_strip qc)) as [c|]; [|discriminate].
  exists c. split; [reflexivity|].
  destruct (fault w) eqn:Hf; [discriminate|]. simpl in H. rewrite Hf in H.
  destruct (_ <=? 0) eqn:Ht; [discriminate|].
  injection H as <- <-. simpl.
  repeat split; try reflexivity.
  - lia.
  - rewrite <- app_assoc. reflexivity.
Qed.

(** A submission that fails validation returns before any Redis call. *)
Lemma submit_enqueue_invalid (cfg : settings) (ext : externals) r_task r_msg qc
    (w : world) :
  fails_validation ext qc = true ->
  exists d, submit_enqueue cfg ext r_task r_msg qc w = (inl (HTTPException 400 d), w).
Proof.
  unfold fails_validation, submit_enqueue, raise, bind, ret. intros H.
  destruct (String.eqb qc "" || String.eqb (py_strip qc) "") eqn:Hc; [eauto|].
  apply orb_false_iff in Hc as [_ Hs]. rewrite Hs in H. simpl in H.
  destruct (qasm3_loads ext (py_strip qc)); [discriminate|eauto].
Qed.

(** A submission that does not succeed leaves the key-value entries as
    they were. *)
Lemma submit_task_inl (cfg : settings) (ext : externals) r_task r_msg qc
    (w : world) e (w' : world) :
  submit_task cfg ext r_task r_msg qc w = (inl e, w') -> kv w' = kv w.
Proof.
  unfold submit_task, submit_enqueue, submit_mark, bind, ret, raise,
    broker_enqueue, redis_call, redis_set.
  intros H.
  destruct (String.eqb qc "" || String.eqb (py_strip qc) "");
    [injection H as _ <-; reflexivity|].
  destruct (qasm3_loads ext (py_strip qc)) as [c|]; [|injection H as _ <-; reflexivity].
  destruct (fault w) eqn:Hf; [injection H as _ <-; reflexivity|].
  simpl in H. rewrite Hf in H.
  destruct (_ <=? 0); [injection H as _ <-; reflexivity|discriminate].
Qed.

End SubmitFacts.

(* ===================================================================== *)
(** ** GET /tasks/{task_id}                                               *)
(* ===================================================================== *)

Module QueryFacts.

(** [get_result] reads only. *)
Lemma get_result_kv (task_id : string) (w : world) o (w' : world) :
  get_result task_id w = (o, w') -> kv w' = kv w /\ results w' = results w.
Proof.
  unfold get_result, bind, redis_call, ret, raise. intros H.
  destruct (fault w); [injection H as _ <-; done|].
  simpl in H. destruct (results w !! task_id) as [[]|]; injection H as _ <-; done.
Qed.

(** The query of a task whose result is stored and is a mapping. *)
Lemma task_status_completed (ext : externals) (task_id : string) (w : world)
    (v : pyval) (d : list (string * json)) :
  fault w = None -> results w !! task_id = Some (RSuccess v) ->
  decoded_mapping ext v = Some d ->
  exists w',
    task_status ext task_id w = (inr (Completed d), w') /\
    kv w' = delete (submitted_key task_id) (kv w) /\
    results w' = results w /\ fault w' = None.
Proof.
  intros Hf Hr Hd.
  unfold task_status, try_except, get_result, task_status_result,
    redis_delete, redis_call, bind, ret.
  rewrite Hf. simpl. rewrite Hr.
  destruct v as [b|j]; simpl in Hd.
  - destruct (json_loads_utf8 ext b) as [[]|]; try discriminate.
    injection Hd as <-. simpl. rewrite Hf.
    eexists; repeat split; reflexivity || assumption.
  - destruct j; try discriminate.
    injection Hd as <-. simpl. rewrite Hf.
    eexists; repeat split; reflexivity || assumption.
Qed.

(** The query of a task whose stored result is not a mapping. *)
Lemma task_status_invalid (ext : externals) (task_id : string) (w : world)
    (v : pyval) :
  fault w = None -> results w !! task_id = Some (RSuccess v) ->
  decoded_mapping ext v = None ->
  fst (task_status ext task_id w) = inr (StatusError "Task result format invalid.").
Proof.
  intros Hf Hr Hd.
  unfold task_status, try_except, get_result, task_status_result, bind, ret,
    redis_call.
  rewrite Hf. simpl. rewrite Hr. simpl.
  destruct v as [b|j]; simpl in Hd.
  - destruct (json_loads_utf8 ext b) as [[]|]; try discriminate; reflexivity.
  - destruct j; try discriminate; reflexivity.
Qed.

(** The query of a task with no stored result. *)
Lemma task_status_missing (ext : externals) (task_id : string) (w : world) :
  fault w = None -> results w !! task_id = None ->
  fst (task_status ext task_id w)
  = inr (match kv w !! submitted_key task_id with
         | Some _ => Pending "Task is still in progress."
         | None => StatusError "Task not found."
         end).
Proof.
  intros Hf Hr.
  unfold task_status, try_except, get_result, task_status_except,
    pending_or_not_found, redis_get, redis_call, bind, ret, raise.
  rewrite Hf. simpl. rewrite Hr. simpl. rewrite Hf. simpl.
  destruct (kv w !! submitted_key task_id); reflexivity.
Qed.

Lemma poll_S (ext : externals) (n : nat) (task_id : string) (w : world) :
  poll ext (S n) task_id w
  = match task_status ext task_id w with
    | (inl e, w1) => (inl e, w1)
    | (inr r, w1) =>
        match poll ext n task_id w1 with
        | (inl e, w2) => (inl e, w2)
        | (inr rs, w2) => (inr (r :: rs), w2)
        end
    end.
Proof. reflexivity. Qed.

End QueryFacts.

(* ===================================================================== *)
(** ** Footprints                                                         *)
(* ===================================================================== *)

Module Footprint.

Lemma only_deletes_refl (w : world) : only_deletes w w.
Proof. split; [done|]. split; [done|]. split; [done|]. exists []. by rewrite app_nil_r. Qed.

Lemma only_deletes_trans (w1 w2 w3 : world) :
  only_deletes w1 w2 -> only_deletes w2 w3 -> only_deletes w1 w3.
Proof.
  intros (K1 & Q1 & R1 & l1 & L1) (K2 & Q2 & R2 & l2 & L2).
  split; [auto|]. split; [congruence|]. split; [congruence|].
  exists (l1 ++ l2). rewrite L2, L1, app_assoc. reflexivity.
Qed.

Lemma deletes_only_ret {A} (a : A) : deletes_only (ret a).
Proof. intros w o w' H. injection H as _ <-. apply only_deletes_refl. Qed.

Lemma deletes_only_raise {A} (e : exn) : deletes_only (A := A) (raise e).
Proof. intros w o w' H. injection H as _ <-. apply only_deletes_refl. Qed.

Lemma deletes_only_bind {A B} (m : M A) (k : A -> M B) :
  deletes_only m -> (forall a, deletes_only (k a)) -> deletes_only (bind m k).
Proof.
  intros Hm Hk w o w' H. unfold bind in H.
  destruct (m w) as [[e|a] w1] eqn:E.
  - injection H as _ <-. eapply Hm, E.
  - eapply only_deletes_trans; [eapply Hm, E|eapply Hk, H].
Qed.

Lemma deletes_only_try {A} (m : M A) (h : exn -> M A) :
  deletes_only m -> (forall e, deletes_only (h e)) -> deletes_only (try_except m h).
Proof.
  intros Hm Hh w o w' H. unfold try_except in H.
  destruct (m w) as [[e|a] w1] eqn:E.
  - eapply only_deletes_trans; [eapply Hm, E|eapply Hh, H].
  - injection H as _ <-. eapply Hm, E.
Qed.

Lemma only_deletes_record (o : redis_op) (w : world) : only_deletes w (record o w).
Proof. split; [done|]. split; [done|]. split; [done|]. exists [o]. reflexivity. Qed.

Lemma deletes_only_redis_get (k : string) : deletes_only (redis_get k).
Proof.
  intros w o w' H. unfold redis_get, redis_call in H.
  destruct (fault w); injection H as _ <-;
    [apply only_deletes_refl|apply only_deletes_record].
Qed.

Lemma deletes_only_redis_delete (k : string) : deletes_only (redis_delete k).
Proof.
  intros w o w' H. unfold redis_delete, redis_call in H.
  destruct (fault w); injection H as _ <-; [apply only_deletes_refl|].
  split; [|split; [done|split; [done|exists [OpDelete k]; reflexivity]]].
  intros k' Hk. simpl in Hk. rewrite lookup_delete in Hk.
  case_decide; [inversion Hk; discriminate|exact Hk].
Qed.

Lemma deletes_only_get_result (mid : string) : deletes_only (get_result mid).
Proof.
  unfold get_result. apply deletes_only_bind.
  - intros w o w' H. unfold redis_call in H.
    destruct (fault w); injection H as _ <-;
      [apply only_deletes_refl|apply only_deletes_record].
  - intros [[v|m]|]; [apply deletes_only_ret|apply deletes_only_raise|apply deletes_only_raise].
Qed.

Lemma deletes_only_task_status (ext : externals) (task_id : string) :
  deletes_only (task_status ext task_id).
Proof.
  unfold task_status. apply deletes_only_try.
  - apply deletes_only_bind; [apply deletes_only_get_result|].
    intros v. unfold task_status_result.
    destruct (match v with PyBytes b => json_loads_utf8 ext b | PyJson j => Some j end)
      as [[]|]; try apply deletes_only_ret.
    apply deletes_only_bind; [apply deletes_only_redis_delete|intros; apply deletes_only_ret].
  - intros e. unfold task_status_except, pending_or_not_found.
    destruct e; try apply deletes_only_ret;
      (apply deletes_only_bind; [apply deletes_only_redis_get|]);
      intros [?|]; apply deletes_only_ret.
Qed.

Lemma deletes_only_run_actor (cfg : settings) (ext : externals) (msg : message) :
  deletes_only (run_actor cfg ext msg).
Proof.
  assert (Hfn : deletes_only (qasm3_task_fn ext (arg_task_id msg) (arg_qasm3_str msg)
                               (QC_TASK_DEFAULT_SHOTS cfg))).
  { unfold qasm3_task_fn.
    destruct (qasm3_loads ext (arg_qasm3_str msg)); [|apply deletes_only_raise].
    destruct (simulate ext _ _); [|apply deletes_only_raise].
    apply deletes_only_bind; [apply deletes_only_redis_delete|intros; apply deletes_only_ret]. }
  intros w o w' H. unfold run_actor in H.
  destruct (qasm3_task_fn ext _ _ _ w) as [[e|c] w1] eqn:E;
    injection H as _ <-; eapply Hfn, E.
Qed.

End Footprint.

(* ===================================================================== *)
(** ** Schedules are executions                                           *)
(* ===================================================================== *)

Module ExecFacts.

Lemma exec_action_step (cfg : settings) (ext : externals) (a : action) (s s' : sys) :
  exec_action cfg ext a s = Some s' -> step cfg ext s s'.
Proof.
  destruct a; simpl; intros H.
  - injection H as <-. constructor.
  - destruct (submitters s !! i) as [[]|] eqn:Hi; try discriminate.
    destruct (submit_enqueue cfg ext r_task r_msg qc (sys_world s)) as [o w'] eqn:E.
    injection H as <-. eapply st_submit_enqueue; eauto.
  - destruct (submitters s !! i) as [[]|] eqn:Hi; try discriminate.
    destruct (submit_mark cfg msg (sys_world s)) as [o w'] eqn:E.
    injection H as <-. eapply st_submit_mark; eauto.
  - destruct (workers s !! j) as [[]|] eqn:Hj; try discriminate.
    destruct (worker_dequeue (sys_world s)) as [[|[msg|]] w1] eqn:E1; try discriminate.
    destruct (run_actor cfg ext msg w1) as [[|out] w2] eqn:E2; try discriminate.
    injection H as <-. eapply st_worker_run; eauto.
  - destruct (workers s !! j) as [[]|] eqn:Hj; try discriminate.
    destruct (after_process cfg msg out (sys_world s)) as [o w'] eqn:E.
    injection H as <-. eapply st_worker_finish; eauto.
  - destruct (task_status ext task_id (sys_world s)) as [o w'] eqn:E.
    injection H as <-. eapply st_query; eauto.
  - injection H as <-. constructor.
  - injection H as <-. constructor.
  - injection H as <-. constructor.
Qed.

Lemma exec_reachable (cfg : settings) (ext : externals) (acts : list action)
    (s s' : sys) :
  exec cfg ext acts s = Some s' -> reachable cfg ext s s'.
Proof.
  revert s; induction acts as [|a acts IH]; intros s H; simpl in H.
  - injection H as <-. apply rtc_refl.
  - destruct (exec_action cfg ext a s) as [s1|] eqn:E; [|discriminate].
    eapply rtc_l; [eapply exec_action_step; exact E|]. apply IH, H.
Qed.

End ExecFacts.

(* ===================================================================== *)
(** ** Every trace of a task goes back to its enqueue                     *)
(* ===================================================================== *)

Module Invariant.
Import Footprint.

Lemma enqueued_mono (w w' : world) (mid : string) l :
  log w' = log w ++ l -> ever_enqueued w mid -> ever_enqueued w' mid.
Proof. unfold ever_enqueued. intros -> H. apply elem_of_app. left. exact H. Qed.

Lemma enqueued_last (w w' : world) (mid : string) :
  log w' = log w ++ [OpEnqueue mid] -> ever_enqueued w' mid.
Proof.
  unfold ever_enqueued. intros ->. apply elem_of_app. right.
  apply list_elem_of_singleton. reflexivity.
Qed.

Lemma insert_lookup_Some {A} (l : list A) i x k y :
  <[i := x]> l !! k = Some y -> (k = i /\ x = y) \/ l !! k = Some y.
Proof. rewrite list_lookup_insert_Some. intros [(-> & -> & _)|(_ & H)]; auto. Qed.

Lemma submit_enqueue_cases cfg ext r_task r_msg qc (w : world) o (w' : world) :
  submit_enqueue cfg ext r_task r_msg qc w = (o, w') ->
  (w' = w /\ exists e, o = inl e) \/
  (exists msg, o = inr msg /\ kv w' = kv w /\ results w' = results w /\
     queue w' = queue w ++ [msg] /\ log w' = log w ++ [OpEnqueue (message_id msg)]).
Proof.
  unfold submit_enqueue, broker_enqueue, redis_call, bind, ret, raise. intros H.
  destruct (String.eqb qc "" || String.eqb (py_strip qc) "");
    [injection H as <- <-; eauto|].
  destruct (qasm3_loads ext (py_strip qc)); [|injection H as <- <-; eauto].
  destruct (fault w); [injection H as <- <-; eauto|].
  simpl in H. injection H as <- <-. right. eexists; repeat split.
Qed.

Lemma submit_mark_cases cfg msg (w : world) o (w' : world) :
  submit_mark cfg msg w = (o, w') ->
  w' = w \/
  exists ttl, kv w' = <[submitted_key (message_id msg) := ("1"%string, ttl)]> (kv w) /\
    queue w' = queue w /\ results w' = results w /\
    log w' = log w ++ [OpSet (submitted_key (message_id msg)) ttl].
Proof.
  unfold submit_mark, redis_set, bind, ret. intros H.
  destruct (fault w); [injection H as _ <-; auto|].
  destruct (_ <=? 0); [injection H as _ <-; auto|].
  injection H as _ <-. right. eexists; repeat split.
Qed.

Lemma worker_dequeue_some (w : world) msg (w1 : world) :
  worker_dequeue w = (inr (Some msg), w1) ->
  queue w = msg :: queue w1 /\ kv w1 = kv w /\ results w1 = results w /\
  log w1 = log w ++ [OpDequeue (message_id msg)].
Proof.
  unfold worker_dequeue. destruct (fault w); [discriminate|].
  destruct (queue w) as [|m q] eqn:Hq; [discriminate|].
  intros H. injection H as <- <-. cbn. auto.
Qed.

Lemma after_process_cases cfg msg out (w : world) o (w' : world) :
  after_process cfg msg out w = (o, w') ->
  kv w' = kv w /\ (exists l, log w' = log w ++ l) /\
  (forall mid, is_Some (results w' !! mid) ->
     is_Some (results w !! mid) \/ mid = message_id msg) /\
  (forall m, m ∈ queue w' -> m ∈ queue w \/ message_id m = message_id msg).
Proof.
  unfold after_process, store_result, broker_enqueue, redis_call.
  destruct out as [e|counts]; [destruct (_ >? _)|];
    destruct (fault w); intros H; injection H as _ <-; cbn.
  all: split; [reflexivity|].
  all: split; [first [exists []; rewrite app_nil_r; reflexivity
                     | eexists; reflexivity]|].
  all: split; intros ? Hin.
  all: try (left; exact Hin).
  all: first
    [ apply lookup_insert_is_Some in Hin as [<-|[_ Hin]];
        [right; reflexivity|left; exact Hin]
    | apply elem_of_app in Hin as [Hin|Hin];
        [left; exact Hin
        |right; apply list_elem_of_singleton in Hin; subst; reflexivity] ].
Qed.

Lemma step_inv cfg ext (s s' : sys) :
  step cfg ext s s' -> enqueue_inv s -> enqueue_inv s'.
Proof.
  intros Hs [Ik Ir Iq Isub Iw]. destruct Hs; simpl in *.
  - constructor; simpl; eauto.
    intros i msg Hi. apply lookup_app_Some in Hi as [Hi|[_ Hi]]; [eauto|].
    apply list_lookup_singleton_Some in Hi as [_ Hi]. discriminate.
  - apply submit_enqueue_cases in H0
      as [[-> [e ->]] | (msg & -> & Hk & Hr & Hq & Hl)].
    + constructor; simpl; eauto.
      intros i' m Hi'. apply insert_lookup_Some in Hi' as [[_ Hx]|Hx];
        [discriminate|eauto].
    + constructor; simpl.
      * intros mid Hm. rewrite Hk in Hm. eapply enqueued_mono; [exact Hl|]. eauto.
      * intros mid Hm. rewrite Hr in Hm. eapply enqueued_mono; [exact Hl|]. eauto.
      * intros m Hm. rewrite Hq in Hm. apply elem_of_app in Hm as [Hm|Hm].
        -- eapply enqueued_mono; [exact Hl|]. eauto.
        -- apply list_elem_of_singleton in Hm. subst m. eapply enqueued_last, Hl.
      * intros i' m Hi'. apply insert_lookup_Some in Hi' as [[_ Hx]|Hx].
        -- injection Hx as <-. eapply enqueued_last, Hl.
        -- eapply enqueued_mono; [exact Hl|]. eauto.
      * intros j m out Hj. eapply enqueued_mono; [exact Hl|]. eauto.
  - apply submit_mark_cases in H0 as [-> | (ttl & Hk & Hq & Hr & Hl)].
    + constructor; simpl; eauto.
      intros i' m Hi'. apply insert_lookup_Some in Hi' as [[_ Hx]|Hx];
        [discriminate|eauto].
    + constructor; simpl.
      * intros mid Hm. rewrite Hk in Hm. eapply enqueued_mono; [exact Hl|].
        apply lookup_insert_is_Some in Hm as [Heq|[_ Hm]]; [|eauto].
        unfold submitted_key in Heq. apply UuidFacts.append_inj_l in Heq.
        subst mid. eauto.
      * intros mid Hm. rewrite Hr in Hm. eapply enqueued_mono; [exact Hl|]. eauto.
      * intros m Hm. rewrite Hq in Hm. eapply enqueued_mono; [exact Hl|]. eauto.
      * intros i' m Hi'. apply insert_lookup_Some in Hi' as [[_ Hx]|Hx];
          [discriminate|]. eapply enqueued_mono; [exact Hl|]. eauto.
      * intros j m out Hj. eapply enqueued_mono; [exact Hl|]. eauto.
  - apply worker_dequeue_some in H0 as (Hq1 & Hk1 & Hr1 & Hl1).
    pose proof (deletes_only_run_actor cfg ext msg _ _ _ H1)
      as (Hk2 & Hq2 & Hr2 & l2 & Hl2).
    assert (Hl : log w2 = log (sys_world s) ++ ([OpDequeue (message_id msg)] ++ l2))
      by (rewrite Hl2, Hl1, app_assoc; reflexivity).
    constructor; simpl.
    + intros mid Hm. apply Hk2 in Hm. rewrite Hk1 in Hm.
      eapply enqueued_mono; [exact Hl|]. eauto.
    + intros mid Hm. rewrite Hr2, Hr1 in Hm. eapply enqueued_mono; [exact Hl|]. eauto.
    + intros m Hm. rewrite Hq2 in Hm. eapply enqueued_mono; [exact Hl|].
      apply Iq. rewrite Hq1. apply elem_of_cons. right. exact Hm.
    + intros i m Hi. eapply enqueued_mono; [exact Hl|]. eauto.
    + intros j' m o Hj'. eapply enqueued_mono; [exact Hl|].
      apply insert_lookup_Some in Hj' as [[_ Hx]|Hx]; [|eauto].
      injection Hx as <- _. apply Iq. rewrite Hq1. apply elem_of_cons. left. reflexivity.
  - apply after_process_cases in H0 as (Hk & [l Hl] & Hr & Hq).
    constructor; simpl.
    + intros mid Hm. rewrite Hk in Hm. eapply enqueued_mono; [exact Hl|]. eauto.
    + intros mid Hm. eapply enqueued_mono; [exact Hl|].
      apply Hr in Hm as [Hm| ->]; eauto.
    + intros m Hm. eapply enqueued_mono; [exact Hl|].
      apply Hq in Hm as [Hm| ->]; eauto.
    + intros i m Hi. eapply enqueued_mono; [exact Hl|]. eauto.
    + intros j' m o' Hj'. apply insert_lookup_Some in Hj' as [[_ Hx]|Hx];
        [discriminate|]. eapply enqueued_mono; [exact Hl|]. eauto.
  - pose proof (deletes_only_task_status ext task_id _ _ _ H)
      as (Hk & Hq & Hr & l & Hl).
    constructor; simpl.
    + intros mid Hm. apply Hk in Hm. eapply enqueued_mono; [exact Hl|]. eauto.
    + intros mid Hm. rewrite Hr in Hm. eapply enqueued_mono; [exact Hl|]. eauto.
    + intros m Hm. rewrite Hq in Hm. eapply enqueued_mono; [exact Hl|]. eauto.
    + intros i m Hi. eapply enqueued_mono; [exact Hl|]. eauto.
    + intros j m o' Hj. eapply enqueued_mono; [exact Hl|]. eauto.
  - constructor; simpl; eauto.
    intros mid Hm. apply lookup_delete_is_Some in Hm as [_ Hm]. exact (Ik mid Hm).
  - constructor; simpl; eauto.
    intros mid' Hm. apply lookup_delete_is_Some in Hm as [_ Hm]. exact (Ir mid' Hm).
  - constructor; simpl; eauto.
Qed.

Lemma boot_inv (n : nat) : enqueue_inv (boot n).
Proof.
  constructor; simpl.
  - intros mid [x Hx]. rewrite lookup_empty in Hx. discriminate.
  - intros mid [x Hx]. rewrite lookup_empty in Hx. discriminate.
  - intros m Hm. apply elem_of_nil in Hm. contradiction.
  - intros i m Hi. rewrite lookup_nil in Hi. discriminate.
  - intros j m out Hj. apply lookup_replicate in Hj as [Hj _]. discriminate.
Qed.

Lemma reachable_inv cfg ext (n : nat) (s : sys) :
  reachable cfg ext (boot n) s -> enqueue_inv s.
Proof.
  unfold reachable. intros H. remember (boot n) as s0 eqn:E.
  assert (H0 : enqueue_inv s0) by (subst; apply boot_inv). clear E.
  induction H as [s0|s0 s1 s2 Hst _ IH]; [exact H0|].
  apply IH. eapply step_inv; eauto.
Qed.

End Invariant.

(* ===================================================================== *)
(** ** app/settings.py: facts on [int()], [str()] and [str.strip()]       *)
(* ===================================================================== *)

Module SettingsFacts.


Lemma lstrip_by_split (p : ascii -> bool) (l : list ascii) :
  exists pre, l = pre ++ lstrip_by p l /\ Forall (fun c => p c = true) pre.
Proof.
  induction l as [|c t IH]; simpl.
  - exists []. split; [reflexivity|constructor].
  - destruct (p c) eqn:Hc.
    + destruct IH as (pre & E & F). exists (c :: pre).
      split; [simpl; f_equal; exact E|constructor; assumption].
    + exists []. split; [reflexivity|constructor].
Qed.

Lemma lstrip_by_app (p : ascii -> bool) (pre l : list ascii) :
  Forall (fun c => p c = true) pre -> lstrip_by p (pre ++ l) = lstrip_by p l.
Proof. induction 1 as [|c pre Hc _ IH]; simpl; [done|]. rewrite Hc. exact IH. Qed.

Lemma lstrip_by_nil_iff (p : ascii -> bool) (l : list ascii) :
  lstrip_by p l = [] <-> Forall (fun c => p c = true) l.
Proof.
  split.
  - destruct (lstrip_by_split p l) as (pre & E & F). intros H.
    rewrite H, app_nil_r in E. subst. exact F.
  - intros H. rewrite <- (app_nil_r l), lstrip_by_app by exact H. reflexivity.
Qed.

Lemma int_space_chars (c : ascii) :
  int_space c = true ->
  digit_value c = None /\ Ascii.eqb c "_" = false /\
  Ascii.eqb c "-" = false /\ Ascii.eqb c "+" = false.
Proof. destruct c as [[] [] [] [] [] [] [] []]; vm_compute; intros H; try discriminate; auto. Qed.

Lemma digit_chars (c : ascii) (d : Z) :
  digit_value c = Some d ->
  int_space c = false /\ Ascii.eqb c "_" = false /\
  Ascii.eqb c "-" = false /\ Ascii.eqb c "+" = false /\ 0 <= d < 10.
Proof.
  destruct c as [[] [] [] [] [] [] [] []]; vm_compute; intros H; try discriminate;
    injection H as <-; repeat split; discriminate.
Qed.

Lemma dec_digit_value (d : Z) : 0 <= d < 10 -> digit_value (dec_digit d) = Some d.
Proof.
  intros Hd. rewrite <- (Z2Nat.id d) by lia.
  assert (Hk : (Z.to_nat d < 10)%nat) by lia.
  generalize (Z.to_nat d) Hk. intros k Hk'.
  do 10 (destruct k as [|k]; [reflexivity|]). lia.
Qed.

Lemma scan_app (ds rest : list ascii) (acc : Z) (cnt : nat) :
  Forall (fun c => is_Some (digit_value c)) ds ->
  (forall c t, rest = c :: t -> digit_value c = None /\ Ascii.eqb c "_" = false) ->
  scan_digits (ds ++ rest) acc cnt = (fold_left digit_step ds acc, (cnt + length ds)%nat, rest).
Proof.
  intros Hds Hr. revert acc cnt.
  induction Hds as [|c ds [d Hc] _ IH]; intros acc cnt; cbn [app fold_left length].
  - destruct rest as [|c t]; [rewrite Nat.add_0_r; reflexivity|].
    destruct (Hr c t eq_refl) as [H1 H2]. cbn [scan_digits]. rewrite H1, H2.
    rewrite Nat.add_0_r. reflexivity.
  - cbn [scan_digits]. rewrite Hc, IH. unfold digit_step. rewrite Hc, Nat.add_succ_r.
    reflexivity.
Qed.

Lemma dec_digits_spec (f : nat) (n : Z) :
  (1 <= f)%nat -> 0 <= n < 10 ^ Z.of_nat f ->
  dec_digits f n <> [] /\
  Forall (fun c => is_Some (digit_value c)) (dec_digits f n) /\
  (forall acc, fold_left digit_step (dec_digits f n) acc
               = acc * 10 ^ Z.of_nat (length (dec_digits f n)) + n) /\
  (forall k : nat, (1 <= k)%nat -> n < 10 ^ Z.of_nat k -> (length (dec_digits f n) <= k)%nat).
Proof.
  revert n. induction f as [|f IH]; intros n Hf Hn; [lia|].
  simpl dec_digits. destruct (n <? 10) eqn:Hlt.
  - apply Z.ltb_lt in Hlt.
    split; [discriminate|].
    split; [constructor; [rewrite dec_digit_value by lia; eexists; reflexivity|constructor]|].
    split; [intros acc; cbn [fold_left length]; unfold digit_step;
            rewrite dec_digit_value by lia; lia|].
    intros k Hk _. simpl. lia.
  - apply Z.ltb_ge in Hlt.
    assert (Hf' : (1 <= f)%nat).
    { destruct f; [|lia]. simpl in Hn. lia. }
    assert (Hn' : 0 <= n / 10 < 10 ^ Z.of_nat f).
    { split; [apply Z.div_pos; lia|].
      apply Z.div_lt_upper_bound; [lia|].
      rewrite Nat2Z.inj_succ, Z.pow_succ_r in Hn by lia. lia. }
    destruct (IH (n / 10) Hf' Hn') as (Hne & Hd & Hv & Hlen).
    split; [destruct (dec_digits f (n / 10)); discriminate|].
    split.
    { apply Forall_app; split; [exact Hd|].
      constructor; [|constructor].
      rewrite dec_digit_value by (apply Z.mod_pos_bound; lia). eexists; reflexivity. }
    split.
    { intros acc. rewrite fold_left_app, Hv. cbn [fold_left]. unfold digit_step.
      rewrite dec_digit_value by (apply Z.mod_pos_bound; lia).
      rewrite length_app. simpl length.
      rewrite Nat2Z.inj_add, Z.pow_add_r by lia. simpl (10 ^ Z.of_nat 1).
      pose proof (Z.div_mod n 10 ltac:(lia)). lia. }
    intros k Hk Hnk. rewrite length_app. simpl length.
    destruct k as [|k]; [lia|].
    assert (Hk' : (1 <= k)%nat).
    { destruct k; [|lia]. simpl in Hnk. lia. }
    assert (n / 10 < 10 ^ Z.of_nat k).
    { apply Z.div_lt_upper_bound; [lia|].
      rewrite Nat2Z.inj_succ, Z.pow_succ_r in Hnk by lia. lia. }
    specialize (Hlen k Hk' H). lia.
Qed.

Lemma log2_fuel (n : Z) :
  0 <= n -> n < 10 ^ Z.of_nat (S (Z.to_nat (Z.log2 n))).
Proof.
  intros Hn.
  rewrite Nat2Z.inj_succ, Z2Nat.id by apply Z.log2_nonneg.
  destruct (Z.eq_dec n 0) as [->|Hnz]; [simpl; lia|].
  apply Z.lt_le_trans with (2 ^ Z.succ (Z.log2 n)).
  - apply Z.log2_spec; lia.
  - apply Z.pow_le_mono_l. split; [lia|lia].
Qed.

Lemma py_int_render (n : Z) (pre post : list ascii) :
  Forall (fun c => int_space c = true) pre ->
  Forall (fun c => int_space c = true) post ->
  Z.abs n < 10 ^ 4300 ->
  py_int (pre ++ list_ascii_of_string (py_str_int n) ++ post) = Some n.
Proof.
  intros Hpre Hpost Hbound.
  unfold py_str_int. rewrite list_ascii_of_string_of_list_ascii.
  set (f := S (Z.to_nat (Z.log2 (Z.abs n)))).
  destruct (dec_digits_spec f (Z.abs n) ltac:(unfold f; lia)
              (conj (Z.abs_nonneg n) (log2_fuel _ (Z.abs_nonneg n))))
    as (Hne & Hd & Hv & Hlen).
  specialize (Hlen 4300%nat ltac:(lia) Hbound).
  destruct (dec_digits f (Z.abs n)) as [|c t] eqn:E; [contradiction|].
  inversion Hd as [|? ? [d Hc] Ht]; subst.
  destruct (digit_chars c d Hc) as (Hcs & _ & Hcm & Hcp & _).
  assert (Hv0 := Hv 0). cbn [fold_left] in Hv0. unfold digit_step at 2 in Hv0. rewrite Hc in Hv0.
  assert (Hrest : forall c' t', post = c' :: t' ->
            digit_value c' = None /\ Ascii.eqb c' "_" = false).
  { intros c' t' ->. inversion Hpost as [|? ? Hs _]; subst.
    destruct (int_space_chars c' Hs) as (H1 & H2 & _). auto. }
  assert (Hscan := scan_app t post d 1 Ht Hrest).
  assert (Hcnt : (INT_MAX_STR_DIGITS <? 1 + length t)%nat = false).
  { apply Nat.ltb_ge. unfold INT_MAX_STR_DIGITS. simpl length in Hlen. lia. }
  assert (Htail : lstrip_by int_space post = []) by (apply lstrip_by_nil_iff; exact Hpost).
  unfold py_int. rewrite app_assoc, <- (app_assoc pre), lstrip_by_app by exact Hpre.
  destruct (n <? 0) eqn:Hneg.
  - apply Z.ltb_lt in Hneg. simpl.
    rewrite Hc, Hscan, Hcnt, Htail. f_equal.
    replace (0 * 10 + d) with d in Hv0 by lia. lia.
  - apply Z.ltb_ge in Hneg. simpl. rewrite Hcs, Hcm, Hcp, Hc, Hscan, Hcnt, Htail.
    f_equal. replace (0 * 10 + d) with d in Hv0 by lia. lia.
Qed.


Lemma int_char_space (c : ascii) : int_space c = true -> int_char c = true.
Proof. unfold int_char. intros ->. reflexivity. Qed.

Lemma int_char_digit (c : ascii) d : digit_value c = Some d -> int_char c = true.
Proof. unfold int_char. intros ->. rewrite orb_true_r. reflexivity. Qed.

Lemma scan_split (t : list ascii) (acc : Z) (cnt : nat) a k rest :
  scan_digits t acc cnt = (a, k, rest) ->
  exists pre, t = pre ++ rest /\ Forall (fun c => int_char c = true) pre.
Proof.
  remember (length t) as m eqn:Hm. assert (Hle : (length t <= m)%nat) by lia. clear Hm.
  revert t acc cnt Hle. induction m as [|m IH]; intros t acc cnt Hle H.
  - destruct t; [|simpl in Hle; lia]. cbn [scan_digits] in H.
    injection H as _ _ <-. exists []. auto.
  - destruct t as [|c t]; cbn [scan_digits] in H.
    + injection H as _ _ <-. exists []. auto.
    + destruct (digit_value c) as [d|] eqn:Hd.
      * simpl in Hle. destruct (IH t _ _ ltac:(lia) H) as (pre & -> & F).
        exists (c :: pre). split; [reflexivity|constructor; [eapply int_char_digit, Hd|exact F]].
      * destruct (Ascii.eqb c "_") eqn:Hu.
        -- destruct t as [|c' t'].
           ++ injection H as _ _ <-. exists []. auto.
           ++ destruct (digit_value c') as [d'|] eqn:Hd'.
              ** simpl in Hle. destruct (IH t' _ _ ltac:(lia) H) as (pre & -> & F).
                 exists (c :: c' :: pre). split; [reflexivity|].
                 constructor; [|constructor; [eapply int_char_digit, Hd'|exact F]].
                 unfold int_char. rewrite Hu. rewrite !orb_true_r. reflexivity.
              ** injection H as _ _ <-. exists []. auto.
        -- injection H as _ _ <-. exists []. auto.
Qed.

Lemma py_int_chars (l : list ascii) (n : Z) :
  py_int l = Some n -> Forall (fun c => int_char c = true) l.
Proof.
  unfold py_int. intros H.
  destruct (lstrip_by_split int_space l) as (pre & E & F).
  rewrite E. apply Forall_app. split.
  { eapply Forall_impl; [exact F|]. intros c. apply int_char_space. }
  destruct (lstrip_by int_space l) as [|c1 t1]; [discriminate|].
  assert (Hsg : exists sg sgn l2, c1 :: t1 = sg ++ l2 /\
              Forall (fun c => int_char c = true) sg /\
              (if Ascii.eqb c1 "-" then (-1, t1)
               else if Ascii.eqb c1 "+" then (1, t1) else (1, c1 :: t1)) = (sgn, l2)).
  { destruct (Ascii.eqb c1 "-") eqn:Hm; [|destruct (Ascii.eqb c1 "+") eqn:Hp].
    - exists [c1], (-1), t1. split; [reflexivity|]. split; [|reflexivity].
      constructor; [|constructor]. unfold int_char. rewrite Hm, !orb_true_r. reflexivity.
    - exists [c1], 1, t1. split; [reflexivity|]. split; [|reflexivity].
      constructor; [|constructor]. unfold int_char. rewrite Hp.
      rewrite !orb_true_r, ?orb_true_l. reflexivity.
    - exists [], 1, (c1 :: t1). split; [reflexivity|]. split; [constructor|reflexivity]. }
  destruct Hsg as (sg & sgn & l2 & E2 & F2 & Hm). rewrite Hm in H. rewrite E2.
  apply Forall_app. split; [exact F2|].
  destruct l2 as [|c t]; [discriminate|].
  destruct (digit_value c) as [d|] eqn:Hd; [|discriminate].
  destruct (scan_digits t d 1) as [[a k] rest] eqn:Hs.
  destruct (_ <? k)%nat; [discriminate|].
  destruct (lstrip_by int_space rest) eqn:Hr; [|discriminate].
  constructor; [eapply int_char_digit, Hd|].
  destruct (scan_split _ _ _ _ _ _ Hs) as (pre2 & -> & F3).
  apply Forall_app. split; [exact F3|].
  apply lstrip_by_nil_iff in Hr. eapply Forall_impl; [exact Hr|]. intros c'. apply int_char_space.
Qed.

Lemma lstrip_list_by (l : list ascii) : lstrip_list l = lstrip_by py_isspace l.
Proof. induction l as [|c t IH]; simpl; [done|]. rewrite IH. reflexivity. Qed.

Lemma string_of_list_ascii_nil (l : list ascii) :
  string_of_list_ascii l = ""%string <-> l = [].
Proof. destruct l; simpl; split; congruence. Qed.

Lemma py_strip_nil_iff (s : string) :
  py_strip s = ""%string <-> Forall (fun c => py_isspace c = true) (list_ascii_of_string s).
Proof.
  unfold py_strip. rewrite !lstrip_list_by.
  set (l := list_ascii_of_string s).
  etransitivity; [apply string_of_list_ascii_nil|].
  transitivity (lstrip_by py_isspace (rev (lstrip_by py_isspace l)) = []).
  { split; intros H; [|rewrite H; reflexivity].
    apply (f_equal (@rev _)) in H. rewrite rev_involutive in H. exact H. }
  rewrite lstrip_by_nil_iff.
  transitivity (Forall (fun c => py_isspace c = true) (lstrip_by py_isspace l)).
  { split; intros H; [apply Forall_rev in H; rewrite rev_involutive in H; exact H
                     |apply Forall_rev, H]. }
  destruct (lstrip_by_split py_isspace l) as (pre & E & F).
  split; intros H.
  - rewrite E. apply Forall_app. auto.
  - rewrite E in H. apply Forall_app in H. tauto.
Qed.

End SettingsFacts.

(* ===================================================================== *)
(** ** The forced bits of a version-4 uuid                                *)
(* ===================================================================== *)

Module UuidBits.

(** The [i]-th hexadecimal digit of [hex_fixed k n]. *)
Lemma nth_hex_fixed (k i : nat) (n : Z) :
  (i < k)%nat ->
  nth i (Uuid.hex_fixed k n) "0"%char
  = Uuid.hex_digit ((n / 16 ^ Z.of_nat (k - 1 - i)) mod 16).
Proof.
  revert n i. induction k as [|k IH]; intros n i Hi; [lia|].
  cbn [Uuid.hex_fixed].
  destruct (Nat.lt_ge_cases i k) as [Hlt|Hge].
  - rewrite app_nth1 by (rewrite UuidFacts.hex_fixed_length; exact Hlt).
    rewrite IH by exact Hlt. f_equal. f_equal.
    rewrite Z.div_div by (try lia; apply Z.pow_pos_nonneg; lia).
    f_equal. replace (S k - 1 - i)%nat with (S (k - 1 - i)) by lia.
    rewrite Nat2Z.inj_succ, Z.pow_succ_r by lia. lia.
  - assert (i = k) by lia. subst i.
    rewrite app_nth2 by (rewrite UuidFacts.hex_fixed_length; lia).
    rewrite UuidFacts.hex_fixed_length, Nat.sub_diag.
    replace (S k - 1 - k)%nat with 0%nat by lia. simpl. rewrite Z.div_1_r. reflexivity.
Qed.

(** Four bits of [uuid4_int r] starting at bit [p], when they are all
    forced. *)
Lemma uuid4_version_bits (r : Z) : (Uuid.uuid4_int r / 2 ^ 76) mod 16 = 4.
Proof.
  rewrite <- Z.shiftr_div_pow2 by lia. change 16 with (2 ^ 4).
  rewrite <- Z.land_ones by lia.
  apply Z.bits_inj'. intros k Hk.
  rewrite Z.land_spec, Z.testbit_ones_nonneg, Z.shiftr_spec by lia.
  destruct (Z.lt_ge_cases k 4) as [Hlt|Hge].
  - unfold Uuid.uuid4_int.
    repeat first [ rewrite Z.lor_spec | rewrite Z.land_spec
                 | rewrite Z.lnot_spec by lia | rewrite Z.shiftl_spec by lia ].
    generalize (Z.testbit r (k + 76)). intros b.
    assert (k = 0 \/ k = 1 \/ k = 2 \/ k = 3) as [-> | [-> | [-> | ->]]] by lia;
      destruct b; reflexivity.
  - replace (k <? 4) with false by (symmetry; apply Z.ltb_ge; lia).
    rewrite andb_false_r. symmetry. apply Z.bits_above_log2; [lia|].
    change (Z.log2 4) with 2. lia.
Qed.

Lemma uuid4_variant_bits (r : Z) : (Uuid.uuid4_int r / 2 ^ 62) mod 4 = 2.
Proof.
  rewrite <- Z.shiftr_div_pow2 by lia. change 4 with (2 ^ 2).
  rewrite <- Z.land_ones by lia.
  apply Z.bits_inj'. intros k Hk.
  rewrite Z.land_spec, Z.testbit_ones_nonneg, Z.shiftr_spec by lia.
  destruct (Z.lt_ge_cases k 2) as [Hlt|Hge].
  - unfold Uuid.uuid4_int.
    repeat first [ rewrite Z.lor_spec | rewrite Z.land_spec
                 | rewrite Z.lnot_spec by lia | rewrite Z.shiftl_spec by lia ].
    generalize (Z.testbit r (k + 62)). intros b.
    assert (k = 0 \/ k = 1) as [->| ->] by lia; destruct b; reflexivity.
  - replace (k <? 2) with false by (symmetry; apply Z.ltb_ge; lia).
    rewrite andb_false_r. symmetry. apply Z.bits_above_log2; [lia|].
    change (Z.log2 2) with 1. lia.
Qed.

Lemma uuid4_variant_digit (r : Z) :
  8 <= (Uuid.uuid4_int r / 2 ^ 60) mod 16 < 12.
Proof.
  pose proof (uuid4_variant_bits r) as H.
  rewrite <- (Z.div_div _ (2 ^ 60) 4) in H by lia.
  change 16 with (4 * 4).
  rewrite UuidFacts.mod_mul_floor by lia. rewrite H.
  pose proof (Z.mod_pos_bound (Uuid.uuid4_int r / 2 ^ 60) 4 ltac:(lia)). lia.
Qed.

Lemma hex_digit_variant (d : Z) :
  8 <= d < 12 -> In (Uuid.hex_digit d) ["8"; "9"; "a"; "b"]%char.
Proof.
  intros Hd. assert (d = 8 \/ d = 9 \/ d = 10 \/ d = 11) as [-> | [-> | [-> | ->]]] by lia;
    simpl; tauto.
Qed.

Lemma uuid_str_nth (h : list ascii) :
  length h = 32%nat ->
  nth 14 (Uuid.uuid_str_list h) "0"%char = nth 12 h "0"%char /\
  nth 19 (Uuid.uuid_str_list h) "0"%char = nth 16 h "0"%char.
Proof.
  intros Hl. do 32 (destruct h as [|? h]; [simpl in Hl; lia|]). split; reflexivity.
Qed.

End UuidBits.

(* ===================================================================== *)
(** ** Footprints and effects of the routes and the worker                *)
(* ===================================================================== *)

Module ServiceFacts.

Lemma touches_only_refl (k : string) (w : world) : touches_only k w w.
Proof. repeat split. left. reflexivity. Qed.

Lemma touches_only_trans (k : string) (w1 w2 w3 : world) :
  touches_only k w1 w2 -> touches_only k w2 w3 -> touches_only k w1 w3.
Proof.
  intros (K1 & Q1 & R1 & F1) (K2 & Q2 & R2 & F2).
  split; [|split; [congruence|split; congruence]].
  destruct K1 as [K1|K1], K2 as [K2|K2]; rewrite K2, K1; auto.
  right. apply delete_delete_eq.
Qed.

Lemma touches_only_record (k : string) (o : redis_op) (w : world) :
  touches_only k w (record o w).
Proof. repeat split. left. reflexivity. Qed.

Lemma task_status_touches (ext : externals) (task_id : string) (w : world) :
  touches_only (submitted_key task_id) w (snd (task_status ext task_id w)).
Proof.
  unfold task_status, get_result, try_except, bind, redis_call, ret, raise.
  destruct (fault w) eqn:Hf; cbn; [apply touches_only_refl|].
  destruct (results w !! task_id) as [[v|m]|] eqn:Hr; cbn.
  - unfold task_status_result, redis_delete, redis_call, bind, ret.
    destruct (match v with PyBytes b => json_loads_utf8 ext b | PyJson j => Some j end)
      as [[]|]; cbn; try apply touches_only_record.
    rewrite Hf. repeat split. right. reflexivity.
  - apply touches_only_record.
  - unfold pending_or_not_found, redis_get, redis_call, bind, ret. cbn. rewrite Hf. cbn.
    destruct (kv w !! submitted_key task_id); repeat split; left; reflexivity.
Qed.
Lemma submit_task_fault (cfg : settings) (ext : externals) r_task r_msg qc
    (w : world) resp (w' : world) :
  submit_task cfg ext r_task r_msg qc w = (inr resp, w') -> fault w' = None.
Proof.
  unfold submit_task, submit_enqueue, submit_mark, bind, ret, raise,
    broker_enqueue, redis_call, redis_set.
  intros H.
  destruct (String.eqb qc "" || String.eqb (py_strip qc) ""); [discriminate|].
  destruct (qasm3_loads ext (py_strip qc)) as [c|]; [|discriminate].
  destruct (fault w) eqn:Hf; [discriminate|]. simpl in H. rewrite Hf in H.
  destruct (_ <=? 0); [discriminate|].
  injection H as _ <-. exact Hf.
Qed.

Lemma task_status_missing_exact (ext : externals) (task_id : string) (w : world) :
  fault w = None -> results w !! task_id = None ->
  task_status ext task_id w
  = (inr (match kv w !! submitted_key task_id with
          | Some _ => Pending "Task is still in progress."
          | None => StatusError "Task not found."
          end),
     record (OpGet (submitted_key task_id)) (record (OpGetResult task_id) w)).
Proof.
  intros Hf Hr.
  unfold task_status, get_result, try_except, task_status_except,
    pending_or_not_found, redis_get, redis_call, bind, ret, raise.
  rewrite Hf. cbn. rewrite Hr. cbn. rewrite Hf. cbn.
  destruct (kv w !! submitted_key task_id); reflexivity.
Qed.

Lemma process_message_success (cfg : settings) (ext : externals) (msg : message)
    (w : world) (c : circuit ext) (counts : list (string * Z)) :
  fault w = None ->
  qasm3_loads ext (arg_qasm3_str msg) = Some c ->
  simulate ext c (QC_TASK_DEFAULT_SHOTS cfg) = Some counts ->
  exists w2,
    process_message cfg ext msg w = (inr tt, w2) /\
    fault w2 = None /\
    kv w2 = delete (String.append "task_submitted:" (arg_task_id msg)) (kv w) /\
    results w2 = <[message_id msg := RSuccess (counts_json counts)]> (results w).
Proof.
  intros Hf Hl Hs.
  unfold process_message, run_actor, qasm3_task_fn, after_process, store_result,
    redis_delete, redis_call, bind, ret.
  rewrite Hl, Hs, Hf. cbn. rewrite Hf.
  eexists. repeat split. exact Hf.
Qed.

End ServiceFacts.

(* ===================================================================== *)
(** ** The claims                                                         *)
(* ===================================================================== *)

Module Claims.

(** C1 (counterexample). One request and one worker thread: the request
    enqueues its message, the worker runs the task to completion and its
    result is stored, and only then does the request write the existence
    marker and answer. At the intermediate state the task is complete
    while no marker exists. *)
Lemma C1_completed_before_marker :
  exists s s',
    reachable default_settings bell_ext (boot 1) s /\
    results (sys_world s) !! generate_unique_id 2
      = Some (RSuccess (counts_json [("00", 5); ("11", 3)])) /\
    kv (sys_world s) !! submitted_key (generate_unique_id 2) = None /\
    log (sys_world s)
      = [OpEnqueue (generate_unique_id 2); OpDequeue (generate_unique_id 2);
         OpDelete (String.append "task_submitted:" (new_task_id 1));
         OpStoreResult (generate_unique_id 2)] /\
    reachable default_settings bell_ext s s' /\
    submitters s' = [SubmitReturned (inr (mkSubmitResponse (generate_unique_id 2)
                                            "Task submitted successfully."))].
Proof.
  assert (Hf : match exec default_settings bell_ext race_schedule (boot 1) with
               | Some s =>
                   results (sys_world s) !! generate_unique_id 2
                     = Some (RSuccess (counts_json [("00", 5); ("11", 3)])) /\
                   kv (sys_world s) !! submitted_key (generate_unique_id 2) = None /\
                   log (sys_world s)
                     = [OpEnqueue (generate_unique_id 2); OpDequeue (generate_unique_id 2);
                        OpDelete (String.append "task_submitted:" (new_task_id 1));
                        OpStoreResult (generate_unique_id 2)] /\
                   match exec default_settings bell_ext [AMark 0] s with
                   | Some s' =>
                       submitters s'
                       = [SubmitReturned (inr (mkSubmitResponse (generate_unique_id 2)
                                                 "Task submitted successfully."))]
                   | None => False
                   end
               | None => False
               end)
    by (vm_compute; repeat split).
  destruct (exec default_settings bell_ext race_schedule (boot 1)) as [s|] eqn:E;
    [|contradiction].
  destruct Hf as (H1 & H2 & H3 & H4).
  destruct (exec default_settings bell_ext [AMark 0] s) as [s'|] eqn:E'; [|contradiction].
  exists s, s'.
  repeat split; try assumption.
  - exact (ExecFacts.exec_reachable _ _ _ _ _ E).
  - exact (ExecFacts.exec_reachable _ _ _ _ _ E').
Qed.

(** C1 (amended). [submit_task] issues the enqueue first and the marker
    write second, and nothing else; a submission that does not succeed
    (rejected, enqueue failed, or marker write failed) leaves no
    marker. *)
Theorem C1_submit_enqueue_then_marker (cfg : settings) (ext : externals)
    (r_task r_msg : Z) (qc : string) (w : world) :
  (forall resp w',
     submit_task cfg ext r_task r_msg qc w = (inr resp, w') ->
     log w' = log w ++ [OpEnqueue (resp_task_id resp);
                        OpSet (submitted_key (resp_task_id resp))
                              (QC_TASK_TIME_LIMIT_MS cfg * QC_TASK_MAX_RETRIES cfg)]) /\
  (forall e w',
     submit_task cfg ext r_task r_msg qc w = (inl e, w') -> kv w' = kv w).
Proof.
  split.
  - intros resp w' H.
    destruct (SubmitFacts.submit_task_inr _ _ _ _ _ _ _ _ H)
      as (c & _ & Hr & _ & _ & _ & _ & Hl).
    rewrite Hl, Hr. reflexivity.
  - intros e w' H. eapply SubmitFacts.submit_task_inl; exact H.
Qed.

Lemma C1_submit_enqueue_then_marker_witness :
  submit_task default_settings bell_ext 1 2 bell_qc empty_world
    = (inr (mkSubmitResponse (generate_unique_id 2) "Task submitted successfully."),
       snd (submit_task default_settings bell_ext 1 2 bell_qc empty_world)) /\
  log (snd (submit_task default_settings bell_ext 1 2 bell_qc empty_world))
    = [OpEnqueue (generate_unique_id 2);
       OpSet (submitted_key (generate_unique_id 2)) (300000 * 3)].
Proof.
  split; [reflexivity|].
  exact (proj1 (C1_submit_enqueue_then_marker default_settings bell_ext 1 2 bell_qc
                  empty_world) _ _ eq_refl).
Defined.

(** C3 (counterexample). The id [submit_task] returns is the broker
    message id [str(uuid4())], 36 characters long, not a 32-character
    hexadecimal string. *)
Lemma C3_task_id_not_hex32 :
  exists resp w',
    submit_task default_settings bell_ext 1 2 bell_qc empty_world = (inr resp, w') /\
    ~ hex32 (resp_task_id resp).
Proof.
  do 2 eexists. split; [reflexivity|].
  intros [Hl _]. vm_compute in Hl. discriminate.
Qed.

(** C3 (amended). An accepted submission returns the broker message id:
    the canonical text of a fresh [uuid4] (36 characters, lowercase
    hexadecimal digits in groups 8-4-4-4-12 separated by dashes), not the
    32-character hexadecimal [new_task_id] it generated; the rendering
    is injective, so submissions whose UUIDs differ get distinct ids. *)
Theorem C3_task_id_is_message_uuid (cfg : settings) (ext : externals)
    (r_task r_msg : Z) (qc : string) (w : world) resp (w' : world) :
  submit_task cfg ext r_task r_msg qc w = (inr resp, w') ->
  resp_task_id resp = generate_unique_id r_msg /\
  String.length (resp_task_id resp) = 36%nat /\
  canonical_uuid (resp_task_id resp) /\
  hex32 (new_task_id r_task) /\
  resp_task_id resp <> new_task_id r_task /\
  (forall rs : list Z, Forall (fun r => 0 <= r < 2 ^ 128) rs ->
     NoDup (map Uuid.uuid4_int rs) -> NoDup (map generate_unique_id rs)).
Proof.
  intros H.
  destruct (SubmitFacts.submit_task_inr _ _ _ _ _ _ _ _ H) as (c & _ & Hr & _).
  rewrite Hr; cbn [resp_task_id message_id actor_message].
  split; [reflexivity|].
  split; [exact (UuidFacts.uuid_str_length _)|].
  split; [exact (UuidFacts.uuid_str_canonical _)|].
  split; [apply UuidFacts.uuid_hex_hex32|].
  split; [intros E; symmetry in E; exact (UuidFacts.new_task_id_ne_message_id _ _ E)|].
  apply UuidFacts.generate_unique_id_NoDup.
Qed.

Lemma C3_task_id_is_message_uuid_witness :
  String.length (resp_task_id (mkSubmitResponse (generate_unique_id 2)
                                 "Task submitted successfully.")) = 36%nat.
Proof.
  exact (proj1 (proj2 (C3_task_id_is_message_uuid default_settings bell_ext 1 2
                         bell_qc empty_world _ _ eq_refl))).
Defined.

(** C7. A submission that fails validation (blank program, or one qiskit
    cannot parse) is refused with a 400 error before any Redis command:
    the world, its key-value entries, queue and log, is unchanged. *)
Theorem C7_invalid_submit_no_effect (cfg : settings) (ext : externals)
    (r_task r_msg : Z) (qc : string) (w : world) :
  fails_validation ext qc = true ->
  exists detail,
    submit_task cfg ext r_task r_msg qc w = (inl (HTTPException 400 detail), w).
Proof.
  intros H.
  destruct (SubmitFacts.submit_enqueue_invalid cfg ext r_task r_msg qc w H) as [d Hd].
  exists d. unfold submit_task, bind. rewrite Hd. reflexivity.
Qed.

Lemma C7_invalid_submit_no_effect_witness :
  fails_validation bell_ext "   " = true /\
  exists detail,
    submit_task default_settings bell_ext 1 2 "   " empty_world
      = (inl (HTTPException 400 detail), empty_world).
Proof.
  split; [reflexivity|].
  apply C7_invalid_submit_no_effect. reflexivity.
Defined.

(** C9. The existence marker of an accepted submission is written with
    expiry [max_retries * time_limit] of the [qasm3_task] actor, both
    read from the same settings the actor is declared with. *)
Theorem C9_marker_ttl_from_actor_config (cfg : settings) (ext : externals)
    (r_task r_msg : Z) (qc : string) (w : world) resp (w' : world) :
  submit_task cfg ext r_task r_msg qc w = (inr resp, w') ->
  kv w' !! submitted_key (resp_task_id resp)
    = Some ("1"%string, max_retries (qasm3_task cfg) * time_limit (qasm3_task cfg)).
Proof.
  intros H.
  destruct (SubmitFacts.submit_task_inr _ _ _ _ _ _ _ _ H)
    as (c & _ & Hr & _ & Hkv & _).
  rewrite Hkv, Hr. simpl. rewrite lookup_insert_eq. simpl.
  rewrite Z.mul_comm. reflexivity.
Qed.

Lemma C9_marker_ttl_from_actor_config_witness :
  kv (snd (submit_task default_settings bell_ext 1 2 bell_qc empty_world))
     !! submitted_key (generate_unique_id 2)
    = Some ("1"%string, 3 * 300000).
Proof.
  exact (C9_marker_ttl_from_actor_config default_settings bell_ext 1 2 bell_qc
           empty_world (mkSubmitResponse (generate_unique_id 2)
                          "Task submitted successfully.") _ eq_refl).
Defined.

(** C10. The id returned and the key of the marker are the message id of
    the enqueued message, while the [task_id] argument the message
    carries (from which the worker builds the key it deletes) is the
    separately generated [new_task_id], never equal to the message id. *)
Theorem C10_returned_id_is_message_id (cfg : settings) (ext : externals)
    (r_task r_msg : Z) (qc : string) (w : world) resp (w' : world) :
  submit_task cfg ext r_task r_msg qc w = (inr resp, w') ->
  exists msg,
    queue w' = queue w ++ [msg] /\
    resp_task_id resp = message_id msg /\
    message_id msg = generate_unique_id r_msg /\
    is_Some (kv w' !! submitted_key (message_id msg)) /\
    arg_task_id msg = new_task_id r_task /\
    arg_task_id msg <> message_id msg /\
    String.append "task_submitted:" (arg_task_id msg) <> submitted_key (message_id msg).
Proof.
  intros H.
  destruct (SubmitFacts.submit_task_inr _ _ _ _ _ _ _ _ H)
    as (c & _ & Hr & _ & Hkv & Hq & _).
  eexists. split; [exact Hq|]. rewrite Hr. simpl.
  split; [reflexivity|]. split; [reflexivity|].
  split; [rewrite Hkv, lookup_insert_eq; eexists; reflexivity|].
  split; [reflexivity|].
  assert (Hne : new_task_id r_task <> generate_unique_id r_msg)
    by apply UuidFacts.new_task_id_ne_message_id.
  split; [exact Hne|].
  intros E. apply UuidFacts.append_inj_l in E. exact (Hne E).
Qed.

Lemma C10_returned_id_is_message_id_witness :
  exists msg,
    queue (snd (submit_task default_settings bell_ext 1 2 bell_qc empty_world)) = [msg] /\
    message_id msg = generate_unique_id 2 /\
    arg_task_id msg = new_task_id 1.
Proof.
  destruct (C10_returned_id_is_message_id default_settings bell_ext 1 2 bell_qc
              empty_world (mkSubmitResponse (generate_unique_id 2)
                             "Task submitted successfully.") _ eq_refl)
    as (msg & Hq & _ & Hm & _ & Ha & _).
  exists msg. split; [exact Hq|]. split; assumption.
Defined.

(** C2 (counterexample). The request is answered and its marker written;
    then the worker runs the actor, whose body issues its delete, and
    only afterwards the Results middleware stores the result: the delete
    precedes the result write. (The key deleted is also not the marker
    key, which is still present at the end.) *)
Lemma C2_delete_before_store :
  exists s s',
    reachable default_settings bell_ext (boot 1) s /\
    log (sys_world s)
      = [OpEnqueue (generate_unique_id 2);
         OpSet (submitted_key (generate_unique_id 2)) 900000;
         OpDequeue (generate_unique_id 2);
         OpDelete (String.append "task_submitted:" (new_task_id 1))] /\
    results (sys_world s) !! generate_unique_id 2 = None /\
    reachable default_settings bell_ext s s' /\
    log (sys_world s') = log (sys_world s) ++ [OpStoreResult (generate_unique_id 2)] /\
    is_Some (kv (sys_world s') !! submitted_key (generate_unique_id 2)).
Proof.
  assert (Hf : match exec default_settings bell_ext in_order_schedule (boot 1) with
               | Some s =>
                   log (sys_world s)
                     = [OpEnqueue (generate_unique_id 2);
                        OpSet (submitted_key (generate_unique_id 2)) 900000;
                        OpDequeue (generate_unique_id 2);
                        OpDelete (String.append "task_submitted:" (new_task_id 1))] /\
                   results (sys_world s) !! generate_unique_id 2 = None /\
                   match exec default_settings bell_ext [AFinish 0] s with
                   | Some s' =>
                       log (sys_world s')
                         = log (sys_world s) ++ [OpStoreResult (generate_unique_id 2)] /\
                       kv (sys_world s') !! submitted_key (generate_unique_id 2)
                         = Some ("1"%string, 900000)
                   | None => False
                   end
               | None => False
               end)
    by (vm_compute; repeat split).
  destruct (exec default_settings bell_ext in_order_schedule (boot 1)) as [s|] eqn:E;
    [|contradiction].
  destruct Hf as (H1 & H2 & H3).
  destruct (exec default_settings bell_ext [AFinish 0] s) as [s'|] eqn:E'; [|contradiction].
  destruct H3 as [H3 H4].
  exists s, s'.
  split; [exact (ExecFacts.exec_reachable _ _ _ _ _ E)|].
  split; [exact H1|]. split; [exact H2|].
  split; [exact (ExecFacts.exec_reachable _ _ _ _ _ E')|].
  split; [exact H3|]. rewrite H4. eexists; reflexivity.
Qed.

(** C2 (amended). For a message whose program parses and simulates, the
    worker first deletes the key ["task_submitted:" ++ task_id] built
    from the message's [task_id] argument (inside the actor), and then
    stores the counts under the message id (in the Results middleware):
    the delete happens before the result write, and between the two the
    result is not yet stored. *)
Theorem C2_worker_deletes_then_stores (cfg : settings) (ext : externals)
    (msg : message) (w : world) (c : circuit ext) (counts : list (string * Z)) :
  fault w = None ->
  qasm3_loads ext (arg_qasm3_str msg) = Some c ->
  simulate ext c (QC_TASK_DEFAULT_SHOTS cfg) = Some counts ->
  let del := String.append "task_submitted:" (arg_task_id msg) in
  exists w1,
    run_actor cfg ext msg w = (inr (inr counts), w1) /\
    log w1 = log w ++ [OpDelete del] /\
    kv w1 = delete del (kv w) /\
    results w1 = results w /\
    exists w2,
      process_message cfg ext msg w = (inr tt, w2) /\
      log w2 = log w ++ [OpDelete del; OpStoreResult (message_id msg)] /\
      kv w2 = delete del (kv w) /\
      results w2 = <[message_id msg := RSuccess (counts_json counts)]> (results w).
Proof.
  intros Hf Hl Hs del.
  unfold process_message, run_actor, qasm3_task_fn, after_process, store_result,
    redis_delete, redis_call, bind, ret.
  rewrite Hl, Hs, Hf. cbn. rewrite Hf.
  eexists. split; [reflexivity|].
  split; [reflexivity|]. split; [reflexivity|]. split; [reflexivity|].
  eexists. split; [reflexivity|].
  cbn. rewrite <- app_assoc. repeat split.
Qed.

Lemma C2_worker_deletes_then_stores_witness :
  exists w2,
    process_message default_settings bell_ext bell_message empty_world = (inr tt, w2) /\
    log w2 = [OpDelete (String.append "task_submitted:" (new_task_id 1));
              OpStoreResult (generate_unique_id 2)].
Proof.
  destruct (C2_worker_deletes_then_stores default_settings bell_ext bell_message
              empty_world bell_qc [("00", 5); ("11", 3)] eq_refl eq_refl eq_refl)
    as (w1 & _ & _ & _ & _ & w2 & E & Hl & _).
  exists w2. split; [exact E|]. exact Hl.
Defined.

(** C4. The handlers of "result missing" and "result timeout" are the
    same; with Redis reachable and no stored result the query answers
    Pending when the marker is present and "Task not found." when it is
    absent; and in any state of the running service, a task id that was
    never enqueued is answered "Task not found.". *)
Theorem C4_missing_timeout_pending_or_not_found (ext : externals)
    (task_id : string) (w : world) :
  task_status_except task_id ResultMissing
    = task_status_except task_id ResultTimeout /\
  (fault w = None -> results w !! task_id = None ->
   fst (task_status ext task_id w)
   = inr (match kv w !! submitted_key task_id with
          | Some _ => Pending "Task is still in progress."
          | None => StatusError "Task not found."
          end)) /\
  (forall cfg n s,
     reachable cfg ext (boot n) s -> fault (sys_world s) = None ->
     ~ ever_enqueued (sys_world s) task_id ->
     fst (task_status ext task_id (sys_world s)) = inr (StatusError "Task not found.")).
Proof.
  split; [reflexivity|].
  split; [apply QueryFacts.task_status_missing|].
  intros cfg n s Hr Hf Hn.
  destruct (Invariant.reachable_inv cfg ext n s Hr) as [Ik Ir _ _ _].
  assert (Hr0 : results (sys_world s) !! task_id = None).
  { destruct (results (sys_world s) !! task_id) eqn:E; [|reflexivity].
    exfalso. apply Hn, Ir. rewrite E. eexists; reflexivity. }
  rewrite (QueryFacts.task_status_missing ext task_id _ Hf Hr0).
  destruct (kv (sys_world s) !! submitted_key task_id) eqn:E; [|reflexivity].
  exfalso. apply Hn, Ik. rewrite E. eexists; reflexivity.
Qed.

Lemma C4_missing_timeout_pending_or_not_found_witness :
  exists s,
    exec default_settings bell_ext [ARequest 1 2 bell_qc; AEnqueue 0; AMark 0] (boot 1)
      = Some s /\
    fst (task_status bell_ext (new_task_id 1) (sys_world s))
      = inr (StatusError "Task not found.").
Proof.
  destruct (exec default_settings bell_ext [ARequest 1 2 bell_qc; AEnqueue 0; AMark 0]
              (boot 1)) as [s|] eqn:E.
  2: vm_compute in E; discriminate.
  exists s. split; [reflexivity|].
  apply (proj2 (proj2 (C4_missing_timeout_pending_or_not_found bell_ext (new_task_id 1)
                         (sys_world s))) default_settings 1%nat s).
  - exact (ExecFacts.exec_reachable _ _ _ _ _ E).
  - vm_compute in E. injection E as <-. reflexivity.
  - vm_compute in E. injection E as <-. unfold ever_enqueued. vm_compute.
    intros H. repeat (apply elem_of_cons in H as [H|H]; [discriminate|]).
    apply elem_of_nil in H. exact H.
Defined.

(** C5. Once a result that is a mapping is stored for [task_id], any
    number of queries in a row all answer the same [Completed d]; the
    first one deletes the marker, later ones delete the absent key
    without error; afterwards the marker is absent and the stored result
    unchanged. *)
Theorem C5_completed_query_idempotent (ext : externals) (task_id : string)
    (w : world) (v : pyval) (d : list (string * json)) (n : nat) :
  fault w = None -> results w !! task_id = Some (RSuccess v) ->
  decoded_mapping ext v = Some d ->
  exists w',
    poll ext (S n) task_id w = (inr (replicate (S n) (Completed d)), w') /\
    kv w' = delete (submitted_key task_id) (kv w) /\
    kv w' !! submitted_key task_id = None /\
    results w' = results w.
Proof.
  intros Hf Hr Hd. revert w Hf Hr.
  induction n as [|n IH]; intros w Hf Hr;
    destruct (QueryFacts.task_status_completed ext task_id w v d Hf Hr Hd)
      as (w1 & E1 & Hk1 & Hr1 & Hf1);
    rewrite QueryFacts.poll_S, E1.
  - exists w1. split; [reflexivity|]. split; [exact Hk1|].
    split; [rewrite Hk1; apply lookup_delete_eq|exact Hr1].
  - destruct (IH w1 Hf1 (eq_trans (f_equal (lookup task_id) Hr1) Hr))
      as (w' & E' & Hk' & Hn' & Hr').
    rewrite E'. exists w'. split; [reflexivity|].
    split; [rewrite Hk', Hk1; apply delete_delete_eq|].
    split; [exact Hn'|congruence].
Qed.

Lemma C5_completed_query_idempotent_witness :
  exists w',
    poll bell_ext 3 "m" completed_world
      = (inr (replicate 3 (Completed [("00"%string, JInt 5); ("11"%string, JInt 3)])), w') /\
    kv w' !! submitted_key "m" = None.
Proof.
  destruct (C5_completed_query_idempotent bell_ext "m" completed_world
              (counts_json [("00", 5); ("11", 3)])
              [("00"%string, JInt 5); ("11"%string, JInt 3)] 2
              eq_refl ltac:(vm_compute; reflexivity) eq_refl)
    as (w' & E & _ & Hn & _).
  exists w'. split; [exact E|exact Hn].
Defined.

(** C6 (counterexample). A stored JSON object with a negative entry is
    answered [Completed], though it is not a mapping to non-negative
    integers. *)
Lemma C6_negative_count_completed :
  exists d,
    fst (task_status bell_ext "m" negative_count_world) = inr (Completed d) /\
    is_count_mapping d = false.
Proof.
  exists [("00"%string, JInt (-1))]. split; vm_compute; reflexivity.
Qed.

(** C6 (amended). With Redis reachable and a successful result stored,
    the query answers [Completed d] exactly when the value (raw bytes
    decoded and parsed first) is a JSON object [d], whatever its entries;
    any other shape, a list or a scalar, is answered
    "Task result format invalid.". *)
Theorem C6_completed_iff_object (ext : externals) (task_id : string) (w : world)
    (v : pyval) :
  fault w = None -> results w !! task_id = Some (RSuccess v) ->
  fst (task_status ext task_id w)
  = inr (match decoded_mapping ext v with
         | Some d => Completed d
         | None => StatusError "Task result format invalid."
         end).
Proof.
  intros Hf Hr.
  destruct (decoded_mapping ext v) as [d|] eqn:Hd.
  - destruct (QueryFacts.task_status_completed ext task_id w v d Hf Hr Hd)
      as (w' & E & _). rewrite E. reflexivity.
  - exact (QueryFacts.task_status_invalid ext task_id w v Hf Hr Hd).
Qed.

Lemma C6_completed_iff_object_witness :
  fst (task_status bell_ext "m" negative_count_world)
    = inr (Completed [("00"%string, JInt (-1))]).
Proof.
  exact (C6_completed_iff_object bell_ext "m" negative_count_world _ eq_refl
           ltac:(vm_compute; reflexivity)).
Defined.

(** C8. An exception of [get_result] other than "result missing" and
    "result timeout" is answered with the structured status
    [StatusError (str e)], no exception reaches the caller, and the
    key-value entries (the marker among them) are unchanged. *)
Theorem C8_other_errors_structured (ext : externals) (task_id : string)
    (w : world) (e : exn) (w1 : world) :
  get_result task_id w = (inl e, w1) -> e <> ResultMissing -> e <> ResultTimeout ->
  task_status ext task_id w = (inr (StatusError (exn_str e)), w1) /\
  kv w1 = kv w.
Proof.
  intros H Hm Ht.
  split; [|exact (proj1 (QueryFacts.get_result_kv _ _ _ _ H))].
  unfold task_status, try_except, bind. rewrite H.
  unfold task_status_except. destruct e; try contradiction; reflexivity.
Qed.

Lemma C8_other_errors_structured_witness :
  task_status bell_ext "m" redis_down_world
    = (inr (StatusError (exn_str (RedisError "Connection refused"))), redis_down_world) /\
  kv redis_down_world = kv redis_down_world.
Proof.
  exact (C8_other_errors_structured bell_ext "m" redis_down_world _ _ eq_refl
           ltac:(discriminate) ltac:(discriminate)).
Defined.

End Claims.

(* ===================================================================== *)
(** ** Further properties of the code                                     *)
(* ===================================================================== *)

Module Extras.

(** X1. Every task id from [new_task_id] has the uuid version digit "4" at
    position 12 and a variant digit in {8, 9, a, b} at position 16; the
    dashed message id of [generate_unique_id] has them at positions 14
    and 19. *)
Theorem X_ids_version_variant (r : Z) :
  nth 12 (list_ascii_of_string (new_task_id r)) "0"%char = "4"%char /\
  In (nth 16 (list_ascii_of_string (new_task_id r)) "0"%char) ["8"; "9"; "a"; "b"]%char /\
  nth 14 (list_ascii_of_string (generate_unique_id r)) "0"%char = "4"%char /\
  In (nth 19 (list_ascii_of_string (generate_unique_id r)) "0"%char) ["8"; "9"; "a"; "b"]%char.
Proof.
  unfold new_task_id, generate_unique_id, Uuid.uuid_hex, Uuid.uuid_str.
  rewrite !list_ascii_of_string_of_list_ascii.
  destruct (UuidBits.uuid_str_nth (Uuid.hex_fixed 32 (Uuid.uuid4_int r))
              (UuidFacts.hex_fixed_length _ _)) as [-> ->].
  rewrite !UuidBits.nth_hex_fixed by lia.
  change (16 ^ Z.of_nat (32 - 1 - 12)) with (2 ^ 76).
  change (16 ^ Z.of_nat (32 - 1 - 16)) with (2 ^ 60).
  rewrite UuidBits.uuid4_version_bits.
  pose proof (UuidBits.hex_digit_variant _ (UuidBits.uuid4_variant_digit r)).
  repeat split; auto.
Qed.


(** X2. [str_to_int] reads back the decimal rendering of any integer with
    fewer than 4300 digits, whatever whitespace surrounds it. *)
Theorem X_str_to_int_roundtrip (n d : Z) (pre post : list ascii) :
  Forall (fun c => int_space c = true) pre ->
  Forall (fun c => int_space c = true) post ->
  Z.abs n < 10 ^ 4300 ->
  str_to_int (Some (string_of_list_ascii
                      (pre ++ list_ascii_of_string (py_str_int n) ++ post))) d = n.
Proof.
  intros Hpre Hpost Hn. unfold str_to_int.
  rewrite list_ascii_of_string_of_list_ascii.
  rewrite (SettingsFacts.py_int_render n pre post Hpre Hpost Hn). reflexivity.
Qed.

Lemma X_str_to_int_roundtrip_witness :
  str_to_int (Some (string_of_list_ascii
                      ([" "%char] ++ list_ascii_of_string (py_str_int (-1204))
                       ++ [ascii_of_nat 10]))) 6379 = -1204.
Proof.
  apply X_str_to_int_roundtrip.
  - repeat constructor.
  - repeat constructor.
  - vm_compute. reflexivity.
Defined.

(** X3. [str_to_int] returns the default for an unset variable, for a
    value made only of whitespace, and for a value containing a character
    [int()] never accepts (such as the separator character 28, which
    [str.strip()] would skip). *)
Theorem X_str_to_int_fallback (d : Z) :
  str_to_int None d = d /\
  (forall s, Forall (fun c => int_space c = true) (list_ascii_of_string s) ->
             str_to_int (Some s) d = d) /\
  (forall s c, In c (list_ascii_of_string s) -> int_char c = false ->
               str_to_int (Some s) d = d).
Proof.
  split; [reflexivity|split].
  - intros s H. unfold str_to_int, py_int.
    apply SettingsFacts.lstrip_by_nil_iff in H. rewrite H. reflexivity.
  - intros s c Hin Hc. unfold str_to_int.
    destruct (py_int (list_ascii_of_string s)) as [n|] eqn:Hp; [|reflexivity].
    apply SettingsFacts.py_int_chars in Hp.
    rewrite Forall_forall in Hp. rewrite <- list_elem_of_In in Hin.
    rewrite (Hp c Hin) in Hc. discriminate.
Qed.

Lemma X_str_to_int_fallback_witness :
  str_to_int (Some (String (ascii_of_nat 28) "5")) 6379 = 6379.
Proof.
  apply (proj2 (proj2 (X_str_to_int_fallback 6379))
           (String (ascii_of_nat 28) "5") (ascii_of_nat 28)).
  - left. reflexivity.
  - reflexivity.
Defined.

(** X4. An unset [API_HOST] becomes the host "None"; a set value becomes
    "0.0.0.0" exactly when it is whitespace only or strips to "0.0.0.0". *)
Theorem X_api_host_default :
  api_host None = "None"%string /\
  (forall t, api_host (Some t) = "0.0.0.0"%string <->
             Forall (fun c => py_isspace c = true) (list_ascii_of_string t)
             \/ py_strip t = "0.0.0.0"%string).
Proof.
  split; [reflexivity|]. intros t. unfold api_host.
  destruct (String.eqb (py_strip t) "") eqn:E.
  - apply String.eqb_eq, SettingsFacts.py_strip_nil_iff in E. tauto.
  - split; [tauto|]. intros [H|H]; [|exact H].
    apply SettingsFacts.py_strip_nil_iff, String.eqb_eq in H. congruence.
Qed.

Lemma X_api_host_default_witness :
  api_host (Some (String " " (String (ascii_of_nat 9) " "))) = "0.0.0.0"%string.
Proof.
  apply (proj2 (proj2 X_api_host_default (String " " (String (ascii_of_nat 9) " ")))).
  left. repeat constructor.
Defined.

(** X5. [submit_task] answers 400 "QASM3 code cannot be empty" exactly
    when the submitted code is made of whitespace only (the empty string
    included). *)
Theorem X_submit_blank_iff (cfg : settings) (ext : externals) r_task r_msg qc
    (w : world) :
  fst (submit_task cfg ext r_task r_msg qc w)
  = inl (HTTPException 400 "QASM3 code cannot be empty")
  <-> Forall (fun c => py_isspace c = true) (list_ascii_of_string qc).
Proof.
  assert (Hc : (String.eqb qc "" || String.eqb (py_strip qc) "") = true
               <-> Forall (fun c => py_isspace c = true) (list_ascii_of_string qc)).
  { rewrite orb_true_iff, !String.eqb_eq, SettingsFacts.py_strip_nil_iff.
    split; [intros [->|H]; [constructor|exact H]|tauto]. }
  unfold submit_task, submit_enqueue, submit_mark, bind, ret, raise,
    broker_enqueue, redis_call, redis_set.
  destruct (String.eqb qc "" || String.eqb (py_strip qc) "") eqn:E.
  - split; [intros _; apply Hc; reflexivity|reflexivity].
  - split; [|intros H; apply Hc in H; discriminate].
    destruct (qasm3_loads ext (py_strip qc)) as [c|]; [|discriminate].
    destruct (fault w) eqn:Hf; [discriminate|]. cbn. rewrite Hf.
    destruct (_ <=? 0); discriminate.
Qed.

Lemma X_submit_blank_iff_witness :
  fst (submit_task default_settings bell_ext 1 2 (String " " (String (ascii_of_nat 9) " ")) empty_world)
  = inl (HTTPException 400 "QASM3 code cannot be empty").
Proof.
  apply (proj2 (X_submit_blank_iff default_settings bell_ext 1 2 (String " " (String (ascii_of_nat 9) " ")) empty_world)).
  repeat constructor.
Defined.

(** X6. An accepted submission puts exactly one message on the queue: on
    queue "default" for actor "execute_qasm3", with the fresh message id,
    the separately drawn [new_task_id] as its [task_id] argument, the
    re-serialization [qasm3.dumps] of the parsed program, and no retries;
    no result is stored. *)
Theorem X_submit_enqueues_message (cfg : settings) (ext : externals) r_task r_msg qc
    (w : world) resp (w' : world) :
  submit_task cfg ext r_task r_msg qc w = (inr resp, w') ->
  exists c,
    qasm3_loads ext (py_strip qc) = Some c /\
    queue w' = queue w ++ [mkMessage "default" "execute_qasm3"
                             (generate_unique_id r_msg) (new_task_id r_task)
                             (qasm3_dumps ext c) 0] /\
    results w' = results w.
Proof.
  intros H.
  destruct (SubmitFacts.submit_task_inr cfg ext r_task r_msg qc w resp w' H)
    as (c & Hl & Hrest).
  cbv zeta in Hrest. destruct Hrest as (_ & _ & _ & Hq & Hr & _).
  exists c. split; [exact Hl|]. split; [exact Hq|exact Hr].
Qed.

Lemma X_submit_enqueues_message_witness :
  let '(_, w') := submit_task default_settings bell_ext 1 2 bell_qc empty_world in
  exists c,
    qasm3_loads bell_ext (py_strip bell_qc) = Some c /\
    queue w' = queue empty_world ++ [mkMessage "default" "execute_qasm3"
                                       (generate_unique_id 2) (new_task_id 1)
                                       (qasm3_dumps bell_ext c) 0] /\
    results w' = results empty_world.
Proof.
  exact (X_submit_enqueues_message default_settings bell_ext 1 2 bell_qc
           empty_world _ _ eq_refl).
Defined.

(** X7. A status query at most deletes the marker of the queried task id:
    the queue, the results and every other key stay as they were. *)
Theorem X_query_touches_only_marker (ext : externals) (task_id : string) (w : world) :
  touches_only (submitted_key task_id) w (snd (task_status ext task_id w)).
Proof. apply ServiceFacts.task_status_touches. Qed.

(** X8. Right after an accepted submission, querying the returned task id
    (with no result stored under it) answers Pending. *)
Theorem X_submit_then_query_pending (cfg : settings) (ext : externals)
    r_task r_msg qc (w : world) resp (w' : world) :
  submit_task cfg ext r_task r_msg qc w = (inr resp, w') ->
  results w !! resp_task_id resp = None ->
  fst (task_status ext (resp_task_id resp) w')
  = inr (Pending "Task is still in progress.").
Proof.
  intros H Hnone.
  pose proof (ServiceFacts.submit_task_fault cfg ext r_task r_msg qc w resp w' H) as Hf.
  destruct (SubmitFacts.submit_task_inr cfg ext r_task r_msg qc w resp w' H)
    as (c & _ & Hrest).
  cbv zeta in Hrest. destruct Hrest as (-> & _ & Hkv & _ & Hr & _).
  cbn [resp_task_id] in *.
  rewrite QueryFacts.task_status_missing by (rewrite ?Hr; assumption).
  rewrite Hkv, lookup_insert_eq. reflexivity.
Qed.

Lemma X_submit_then_query_pending_witness :
  let '(o, w') := submit_task default_settings bell_ext 1 2 bell_qc empty_world in
  match o with
  | inr resp =>
      fst (task_status bell_ext (resp_task_id resp) w')
      = inr (Pending "Task is still in progress.")
  | inl _ => False
  end.
Proof.
  exact (X_submit_then_query_pending default_settings bell_ext 1 2 bell_qc
           empty_world _ _ eq_refl eq_refl).
Defined.

(** X9. While Redis is reachable, no result is stored and the marker is
    present, any number of queries all answer Pending and change neither
    the keys, the queue nor the results. *)
Theorem X_poll_in_flight (ext : externals) (task_id : string) (w : world) (n : nat) :
  fault w = None -> results w !! task_id = None ->
  is_Some (kv w !! submitted_key task_id) ->
  exists w',
    poll ext (S n) task_id w
    = (inr (replicate (S n) (Pending "Task is still in progress.")), w') /\
    kv w' = kv w /\ queue w' = queue w /\ results w' = results w.
Proof.
  revert w. induction n as [|n IH]; intros w Hf Hr [x Hk];
    rewrite QueryFacts.poll_S, ServiceFacts.task_status_missing_exact by assumption;
    rewrite Hk.
  - eexists. split; [reflexivity|]. repeat split.
  - destruct (IH (record (OpGet (submitted_key task_id)) (record (OpGetResult task_id) w))
                Hf Hr (ex_intro _ x Hk)) as (w' & -> & Hk' & Hq' & Hr').
    exists w'. split; [reflexivity|]. repeat split; assumption.
Qed.

Lemma X_poll_in_flight_witness :
  fst (poll bell_ext 3 "m"
         (mkWorld {[submitted_key "m" := ("1"%string, 900000)]} [] ∅ None []))
  = inr (replicate 3 (Pending "Task is still in progress.")).
Proof.
  destruct (X_poll_in_flight bell_ext "m"
              (mkWorld {[submitted_key "m" := ("1"%string, 900000)]} [] ∅ None []) 2
              ltac:(reflexivity) ltac:(vm_compute; reflexivity)
              ltac:(eexists; vm_compute; reflexivity)) as (w' & E & _).
  rewrite E. reflexivity.
Defined.

(** X10. When the worker runs a message whose program parses and
    simulates, a following query of its message id answers Completed with
    the counts, and removes that id's marker. *)
Theorem X_worker_then_query_completed (cfg : settings) (ext : externals)
    (msg : message) (w : world) (c : circuit ext) (counts : list (string * Z)) :
  fault w = None ->
  qasm3_loads ext (arg_qasm3_str msg) = Some c ->
  simulate ext c (QC_TASK_DEFAULT_SHOTS cfg) = Some counts ->
  exists w2 w3,
    process_message cfg ext msg w = (inr tt, w2) /\
    task_status ext (message_id msg) w2
    = (inr (Completed (map (fun '(k, n) => (k, JInt n)) counts)), w3) /\
    kv w3 !! submitted_key (message_id msg) = None /\
    results w3 = results w2.
Proof.
  intros Hf Hl Hs.
  destruct (ServiceFacts.process_message_success cfg ext msg w c counts Hf Hl Hs)
    as (w2 & Hp & Hf2 & _ & Hr2).
  destruct (QueryFacts.task_status_completed ext (message_id msg) w2
              (counts_json counts) (map (fun '(k, n) => (k, JInt n)) counts) Hf2)
    as (w3 & Ht & Hk3 & Hr3 & _).
  - rewrite Hr2. apply lookup_insert_eq.
  - reflexivity.
  - exists w2, w3. split; [exact Hp|]. split; [exact Ht|]. split; [|exact Hr3].
    rewrite Hk3. apply lookup_delete_eq.
Qed.

Lemma X_worker_then_query_completed_witness :
  exists w2 w3,
    process_message default_settings bell_ext bell_message empty_world = (inr tt, w2) /\
    task_status bell_ext (message_id bell_message) w2
    = (inr (Completed [("00"%string, JInt 5); ("11"%string, JInt 3)]), w3) /\
    kv w3 !! submitted_key (message_id bell_message) = None /\
    results w3 = results w2.
Proof.
  exact (X_worker_then_query_completed default_settings bell_ext bell_message
           empty_world bell_qc [("00"%string, 5); ("11"%string, 3)]
           eq_refl eq_refl eq_refl).
Defined.

(** X11. When the program does not parse or the simulation fails, the
    actor raises before any Redis command: the world is unchanged (no
    marker is deleted) and only the failure handling follows. *)
Theorem X_actor_failure_no_redis (cfg : settings) (ext : externals)
    (msg : message) (w : world) :
  (qasm3_loads ext (arg_qasm3_str msg) = None \/
   exists c, qasm3_loads ext (arg_qasm3_str msg) = Some c /\
             simulate ext c (QC_TASK_DEFAULT_SHOTS cfg) = None) ->
  exists e,
    run_actor cfg ext msg w = (inr (inl e), w) /\
    process_message cfg ext msg w = after_process cfg msg (inl e) w.
Proof.
  intros H.
  assert (Hq : exists e, qasm3_task_fn ext (arg_task_id msg) (arg_qasm3_str msg)
                           (QC_TASK_DEFAULT_SHOTS cfg) w = (inl e, w)).
  { unfold qasm3_task_fn, raise.
    destruct H as [-> | (c & -> & ->)]; eexists; reflexivity. }
  destruct Hq as [e Hq]. exists e.
  assert (Hr : run_actor cfg ext msg w = (inr (inl e), w))
    by (unfold run_actor; rewrite Hq; reflexivity).
  split; [exact Hr|].
  unfold process_message, bind. rewrite Hr. reflexivity.
Qed.

Lemma X_actor_failure_no_redis_witness :
  exists e,
    run_actor default_settings unparsable_ext bell_message empty_world
    = (inr (inl e), empty_world) /\
    process_message default_settings unparsable_ext bell_message empty_world
    = after_process default_settings bell_message (inl e) empty_world.
Proof.
  exact (X_actor_failure_no_redis default_settings unparsable_ext bell_message
           empty_world (or_introl eq_refl)).
Defined.

(** X12. In every state of the running service, every marker, every stored
    result and every queued message belongs to a message id that was
    enqueued at some point. *)
Theorem X_reachable_traces_enqueued (cfg : settings) (ext : externals) (n : nat)
    (s : sys) :
  reachable cfg ext (boot n) s ->
  (forall mid, is_Some (kv (sys_world s) !! submitted_key mid) ->
               OpEnqueue mid ∈ log (sys_world s)) /\
  (forall mid, is_Some (results (sys_world s) !! mid) ->
               OpEnqueue mid ∈ log (sys_world s)) /\
  (forall msg, msg ∈ queue (sys_world s) ->
               OpEnqueue (message_id msg) ∈ log (sys_world s)).
Proof.
  intros H. destruct (Invariant.reachable_inv cfg ext n s H) as [Hk Hr Hq _ _].
  split; [exact Hk|]. split; [exact Hr|exact Hq].
Qed.

Lemma X_reachable_traces_enqueued_witness :
  match exec default_settings bell_ext race_schedule (boot 1) with
  | Some s =>
      (forall mid, is_Some (kv (sys_world s) !! submitted_key mid) ->
                   OpEnqueue mid ∈ log (sys_world s)) /\
      (forall mid, is_Some (results (sys_world s) !! mid) ->
                   OpEnqueue mid ∈ log (sys_world s)) /\
      (forall msg, msg ∈ queue (sys_world s) ->
                   OpEnqueue (message_id msg) ∈ log (sys_world s))
  | None => False
  end.
Proof.
  destruct (exec default_settings bell_ext race_schedule (boot 1)) as [s|] eqn:E.
  - exact (X_reachable_traces_enqueued default_settings bell_ext 1 s
             (ExecFacts.exec_reachable default_settings bell_ext race_schedule
                (boot 1) s E)).
  - vm_compute in E. discriminate.
Defined.

End Extras.
